(** * OmegaOne: plugin host, hot reload and AI patch pipeline

    A shallow embedding of [host.py] (the [AIAgent], the [ReloadHandler]
    debouncer and the [GameHost] loop) and of the bundled plugin
    [games/pendulum/logic.py], followed by the properties of the plugin
    lifecycle that the design document states.

    Conventions of the embedding:
    - a Python [str] is a [string]; every [ascii] stands for one character
      (code points below 256), so [len] is [String.length];
    - Python floats that carry time or geometry are rationals ([Q]); the
      literal [1/60.0] is [1 # 60] and [ms / 1000.0] is [ms # 1000];
    - an exception deriving from [Exception] is a value of [Exc]; a call
      that may raise returns a [Result];
    - a [dict] keyed by strings is a [gmap string _]; module objects live
      in [sys_modules] and are referred to by their dotted name, so that
      the host's [current_game_module] and [sys.modules] alias the same
      object;
    - the host state carries [stdout] (what [print] wrote) and [calls], a
      chronological record of the calls the host made into the physics
      engine and into plugin hooks. *)

From Stdlib Require Import Ascii QArith Lqa.
From stdpp Require Import gmap strings list.

(* ================================================================== *)
(** ** Python built-ins used by the host *)

Module Py.

(** Exceptions deriving from [Exception]: class name and [str(e)]. *)
Record Exc := mkExc { exc_type : string; exc_str : string }.

Inductive Result (A : Type) : Type :=
| Ok (a : A)
| Raise (e : Exc).
Arguments Ok {A} a.
Arguments Raise {A} e.

Definition bind {A B} (r : Result A) (k : A -> Result B) : Result B :=
  match r with
  | Ok a => k a
  | Raise e => Raise e
  end.

Definition nl : string := String (Ascii.ascii_of_nat 10) "".

(** [str.isspace] on one character, for code points below 256:
    TAB..CR, FS..US, SPACE, NEL and NBSP. *)
Definition isspace (c : ascii) : bool :=
  let n := Ascii.nat_of_ascii c in
  (((9 <=? n) && (n <=? 13)) || ((28 <=? n) && (n <=? 32))
   || (n =? 133) || (n =? 160))%nat.

(** [sub in s]. *)
Fixpoint contains (sub s : string) : bool :=
  match s with
  | EmptyString => String.prefix sub EmptyString
  | String _ s' => String.prefix sub s || contains sub s'
  end.

(** [s.split(sep)] for a non-empty [sep]: the text is scanned from the
    left, every occurrence of [sep] closes the current field and the
    scan resumes after it.  [skip] counts the characters of a matched
    separator that are still to be passed over. *)
Fixpoint split_from (sep : string) (skip : nat) (s : string) : list string :=
  match s with
  | EmptyString => [EmptyString]
  | String c s' =>
      match skip with
      | S k => split_from sep k s'
      | O =>
          if String.prefix sep s
          then EmptyString :: split_from sep (String.length sep - 1) s'
          else match split_from sep 0 s' with
               | field :: fields => String c field :: fields
               | [] => [String c EmptyString]
               end
      end
  end.

Definition split (sep s : string) : list string := split_from sep 0 s.

(** [l[i]], raising [IndexError] out of range. *)
Definition item (l : list string) (i : nat) : Result string :=
  match l !! i with
  | Some x => Ok x
  | None => Raise (mkExc "IndexError" "list index out of range")
  end.

Fixpoint lstrip (s : string) : string :=
  match s with
  | EmptyString => EmptyString
  | String c s' => if isspace c then lstrip s' else s
  end.

Fixpoint rstrip (s : string) : string :=
  match s with
  | EmptyString => EmptyString
  | String c s' =>
      match rstrip s' with
      | EmptyString => if isspace c then EmptyString else String c EmptyString
      | r => String c r
      end
  end.

(** [s.strip()]. *)
Definition strip (s : string) : string := lstrip (rstrip s).

(** [s.endswith(suffix)]. *)
Fixpoint endswith (s suffix : string) : bool :=
  String.eqb s suffix ||
  match s with
  | EmptyString => false
  | String _ s' => endswith s' suffix
  end.

(** Truthiness of an optional string ([None] and [""] are falsy). *)
Definition truthy (o : option string) : bool :=
  match o with
  | Some (String _ _) => true
  | _ => false
  end.

End Py.

Import Py.

(** [Result] is the error monad in which [try] bodies are written. *)
#[global] Instance result_ret : MRet Result := @Ok.
#[global] Instance result_bind : MBind Result :=
  fun A B k r => Py.bind r k.

(* ================================================================== *)
(** ** The file system below the working directory *)

Module Fs.

(** A directory keeps its entries in listing order. *)
#[warnings="-register-all"] Inductive Node :=
| File (content : string)
| Dir (entries : list (string * Node)).

Definition entry (name : string) (entries : list (string * Node))
  : option Node :=
  snd <$> List.find (fun e => String.eqb (fst e) name) entries.

(** Resolution of a relative path given by its components. *)
Fixpoint resolve (n : Node) (path : list string) : option Node :=
  match path with
  | [] => Some n
  | p :: rest =>
      match n with
      | Dir es =>
          match entry p es with
          | Some child => resolve child rest
          | None => None
          end
      | File _ => None
      end
  end.

(** [os.path.exists]. *)
Definition exists_ (n : Node) (path : list string) : bool :=
  match resolve n path with
  | Some _ => true
  | None => false
  end.

(** [os.path.isdir]. *)
Definition isdir (n : Node) (path : list string) : bool :=
  match resolve n path with
  | Some (Dir _) => true
  | _ => false
  end.

(** [os.listdir]. *)
Definition listdir (n : Node) (path : list string) : Result (list string) :=
  match resolve n path with
  | Some (Dir es) => Ok (fst <$> es)
  | Some (File _) => Raise (mkExc "NotADirectoryError" "Not a directory")
  | None => Raise (mkExc "FileNotFoundError" "No such file or directory")
  end.

(** [open(path, 'r').read()]. *)
Definition read (n : Node) (path : list string) : Result string :=
  match resolve n path with
  | Some (File content) => Ok content
  | Some (Dir _) => Raise (mkExc "IsADirectoryError" "Is a directory")
  | None => Raise (mkExc "FileNotFoundError" "No such file or directory")
  end.

Definition set_entry (name : string) (node : Node)
    (entries : list (string * Node)) : list (string * Node) :=
  (fun e => if String.eqb (fst e) name then (name, node) else e) <$> entries.

(** [open(path, 'w').write(content)]: the file is created when only the
    last component is missing, and replaced in full when it exists. *)
Fixpoint write (n : Node) (path : list string) (content : string)
  : Result Node :=
  match path with
  | [] =>
      match n with
      | File _ => Ok (File content)
      | Dir _ => Raise (mkExc "IsADirectoryError" "Is a directory")
      end
  | p :: rest =>
      match n with
      | File _ => Raise (mkExc "NotADirectoryError" "Not a directory")
      | Dir es =>
          match entry p es with
          | Some child =>
              child' ← write child rest content;
              Ok (Dir (set_entry p child' es))
          | None =>
              match rest with
              | [] => Ok (Dir (es ++ [(p, File content)]))
              | _ :: _ =>
                  Raise (mkExc "FileNotFoundError" "No such file or directory")
              end
          end
      end
  end.

End Fs.

(* ================================================================== *)
(** ** The physics engine, as far as the host and the plugins use it *)

Definition Vec : Type := Q * Q.

Inductive Color :=
| ColorName (name : string)
| RGB (r g b : Z).

Module Pymunk.

(** A body handle: the space's static body, or the body registered at
    an index of [bodies]. *)
Inductive BodyRef :=
| StaticBody
| BodyAt (i : nat).

(** The result of [pymunk.moment_for_segment], kept symbolic. *)
Inductive Moment :=
| moment_for_segment (mass : Q) (a b : Vec) (radius : Q).

Record Body := mkBody {
  mass : Q;
  moment : Moment;
  position : Vec;
  angle : Q
}.

Record Segment := mkSegment {
  seg_body : BodyRef;
  seg_a : Vec;
  seg_b : Vec;
  seg_radius : Q;
  color : option Color;
  elasticity : Q
}.

Inductive Constraint :=
| PinJoint (a b : BodyRef) (anchor_a anchor_b : Vec).

Record Space := mkSpace {
  gravity : Vec;
  bodies : list Body;
  shapes : list Segment;
  constraints : list Constraint
}.

(** [pymunk.Space()]. *)
Definition new_space : Space :=
  {| gravity := (0, 0)%Q; bodies := []; shapes := []; constraints := [] |}.

Definition set_gravity (g : Vec) (s : Space) : Space :=
  {| gravity := g; bodies := bodies s; shapes := shapes s;
     constraints := constraints s |}.

Definition set_body (i : nat) (b : Body) (s : Space) : Space :=
  {| gravity := gravity s; bodies := <[i := b]> (bodies s);
     shapes := shapes s; constraints := constraints s |}.

Inductive SpaceObject :=
| OBody (b : Body)
| OShape (sh : Segment)
| OConstraint (c : Constraint).

Definition add1 (s : Space) (o : SpaceObject) : Space :=
  match o with
  | OBody b =>
      {| gravity := gravity s; bodies := bodies s ++ [b];
         shapes := shapes s; constraints := constraints s |}
  | OShape sh =>
      {| gravity := gravity s; bodies := bodies s;
         shapes := shapes s ++ [sh]; constraints := constraints s |}
  | OConstraint c =>
      {| gravity := gravity s; bodies := bodies s;
         shapes := shapes s; constraints := constraints s ++ [c] |}
  end.

(** [space.add(...)] with one or more objects. *)
Definition add (s : Space) (objs : list SpaceObject) : Space :=
  foldl add1 s objs.

(** The numerical services of the engine are opaque to the host. *)
Class Engine := {
  step : Space -> Q -> Space;
  rotated : Vec -> Q -> Vec
}.

End Pymunk.

Import Pymunk.

(** What [pygame] has been asked to paint on the screen surface since the
    last [fill]. *)
Inductive DrawCmd :=
| Fill (c : Color)
| Line (c : Color) (p1 p2 : Vec) (width : Z)
| Circle (c : Color) (center : Z * Z) (radius : Z)
| DrawUI.

(** [int(x)]: truncation towards zero. *)
Definition py_int (x : Q) : Z := Z.quot (Qnum x) (Z.pos (Qden x)).

(* ================================================================== *)
(** ** Plugin modules *)

(** Values a plugin keeps in its module globals. *)
#[warnings="-register-all"] Inductive Value :=
| VNone
| VInt (z : Z)
| VFloat (q : Q)
| VStr (s : string)
| VBody (b : BodyRef)
| VDict (items : list (string * Value)).

(** [d.get(key)]. *)
Definition dict_get (key : string) (d : list (string * Value)) : Value :=
  match List.find (fun e => String.eqb (fst e) key) d with
  | Some e => snd e
  | None => VNone
  end.

(** [d[key] = v]. *)
Definition dict_set (key : string) (v : Value) (d : list (string * Value))
  : list (string * Value) :=
  match List.find (fun e => String.eqb (fst e) key) d with
  | Some _ => (fun e => if String.eqb (fst e) key then (key, v) else e) <$> d
  | None => d ++ [(key, v)]
  end.

(** What a hook can read and mutate: the globals of its module, the
    physics space of the host and the screen surface.  A hook returns the
    state it leaves behind together with the exception it raised, if any:
    mutations made before a [raise] stay. *)
Record HookState := mkHookState {
  hs_globals : gmap string Value;
  hs_space : Space;
  hs_screen : list DrawCmd
}.

Definition Hook (A : Type) : Type := A -> HookState -> HookState * option Exc.

(** A module object: the three attributes the host probes with [hasattr]
    and the rest of the namespace. *)
Record Module := mkModule {
  attr_setup : option (Hook unit);
  attr_update : option (Hook Q);
  attr_draw : option (Hook unit);
  globals : gmap string Value
}.

Definition empty_module : Module :=
  {| attr_setup := None; attr_update := None; attr_draw := None;
     globals := ∅ |}.

Definition set_globals (g : gmap string Value) (m : Module) : Module :=
  {| attr_setup := attr_setup m; attr_update := attr_update m;
     attr_draw := attr_draw m; globals := g |}.

(** Executing the body of a module in a namespace: a fresh one on first
    import, the existing one on [importlib.reload]. *)
Definition ModuleCode : Type := Module -> Module * option Exc.

(** The import system: the code found for a dotted module name. *)
Definition Finder : Type := string -> option ModuleCode.

Definition module_not_found (name : string) : Exc :=
  mkExc "ModuleNotFoundError" ("No module named '" +:+ name +:+ "'").

(** [importlib.import_module(name)] for a module absent from
    [sys.modules]; a module whose body raises is not kept. *)
Definition import_module (finder : Finder) (name : string)
    (mods : gmap string Module) : gmap string Module * Result Module :=
  match finder name with
  | None => (mods, Raise (module_not_found name))
  | Some code =>
      match code empty_module with
      | (m, None) => (<[name := m]> mods, Ok m)
      | (_, Some e) => (mods, Raise e)
      end
  end.

(** [importlib.reload(sys.modules[name])]: the body runs again in the
    namespace of the existing module object, which stays in [sys.modules]
    whatever happens. *)
Definition reload (finder : Finder) (name : string) (old : Module)
    (mods : gmap string Module) : gmap string Module * Result Module :=
  match finder name with
  | None => (mods, Raise (module_not_found name))
  | Some code =>
      match code old with
      | (m, None) => (<[name := m]> mods, Ok m)
      | (m, Some e) => (<[name := m]> mods, Raise e)
      end
  end.

(* ================================================================== *)
(** ** games/pendulum/logic.py *)

Module Pendulum.

Definition name_error (name : string) : Exc :=
  mkExc "NameError" ("name '" +:+ name +:+ "' is not defined").

Definition setup : Hook unit := fun _ st =>
  let space := hs_space st in
  (* global objects; objects = {} *)
  let objects : list (string * Value) := [] in
  let mass := 1%Q in
  let length := 100%Z in
  let moment :=
    moment_for_segment mass (0, 0)%Q (0, inject_Z length)%Q 5%Q in
  let body :=
    {| mass := mass; moment := moment;
       position := (400, 300)%Q; angle := (314 # 100)%Q |} in
  let body_ref := BodyAt (List.length (bodies space)) in
  let shape :=
    {| seg_body := body_ref; seg_a := (0, 0)%Q;
       seg_b := (0, inject_Z length)%Q; seg_radius := 5%Q;
       color := Some (ColorName "white"); elasticity := (1 # 2)%Q |} in
  let space := add space [OBody body; OShape shape] in
  let pivot := PinJoint StaticBody body_ref (400, 300)%Q (0, 0)%Q in
  let space := add space [OConstraint pivot] in
  let objects := dict_set "body" (VBody body_ref) objects in
  let objects := dict_set "length" (VInt length) objects in
  ({| hs_globals := <["objects" := VDict objects]> (hs_globals st);
      hs_space := space; hs_screen := hs_screen st |}, None).

Definition update : Hook Q := fun dt st => (st, None).

Definition vec_add (p q : Vec) : Vec := (fst p + fst q, snd p + snd q)%Q.

Definition draw `{Engine} : Hook unit := fun _ st =>
  match hs_globals st !! "objects" with
  | Some (VDict objects) =>
      match dict_get "body" objects, dict_get "length" objects with
      | VBody (BodyAt i), VInt length =>
          match bodies (hs_space st) !! i with
          | Some body =>
              let p1 := position body in
              let vec := rotated (0, inject_Z length)%Q (angle body) in
              let p2 := vec_add p1 vec in
              ({| hs_globals := hs_globals st; hs_space := hs_space st;
                  hs_screen :=
                    hs_screen st ++
                    [Line (RGB 200 200 200) p1 p2 4;
                     Circle (RGB 0 255 0)
                       (py_int (fst p1), py_int (snd p1)) 5;
                     Circle (RGB 255 100 100)
                       (py_int (fst p2), py_int (snd p2)) 15] |}, None)
          | None =>
              (st, Some (mkExc "ReferenceError" "body is not in the space"))
          end
      | VNone, _ => (st, None)
      | _, _ => (st, Some (mkExc "TypeError" "unsupported operand"))
      end
  | Some _ => (st, Some (mkExc "AttributeError" "no attribute 'get'"))
  | None => (st, Some (name_error "objects"))
  end.

(** The module body: [objects = {}] and the three [def]s. *)
Definition code `{Engine} : ModuleCode := fun ns =>
  ({| attr_setup := Some setup; attr_update := Some update;
      attr_draw := Some draw;
      globals := <["objects" := VDict []]> (globals ns) |}, None).

End Pendulum.

(* ================================================================== *)
(** ** host.py: configuration and the AI agent *)

Definition GAMES_DIR : string := "games".

(** The code-generation collaborator: [generate_content(prompt).text],
    or the exception the call or the attribute access raised. *)
Record AIAgent := mkAIAgent {
  model : option (string -> Result string)
}.

Definition prompt (current_code error_log context : string) : string :=
  nl +:+
  "        Act as a Senior Python Game Developer. " +:+ nl +:+
  "        I am working on a plugin for a Pygame/Pymunk engine." +:+ nl +:+
  "        " +:+ nl +:+
  "        The Context: " +:+ context +:+ nl +:+
  "        " +:+ nl +:+
  "        The Code:" +:+ nl +:+
  "        ```python" +:+ nl +:+
  "        " +:+ current_code +:+ nl +:+
  "        ```" +:+ nl +:+
  "        " +:+ nl +:+
  "        The Error (if any) or Request:" +:+ nl +:+
  "        " +:+ error_log +:+ nl +:+
  "        " +:+ nl +:+
  "        Please provide the full corrected Python code for the module. " +:+ nl +:+
  "        Return ONLY the python code inside markdown code blocks." +:+ nl +:+
  "        ".

Definition suggest_fix (self : AIAgent)
    (current_code error_log context : string) : string :=
  match model self with
  | None => "Error: GEMINI_API_KEY not found in environment variables."
  | Some generate_content =>
      let prompt := prompt current_code error_log context in
      let attempt : Result string :=
        text ← generate_content prompt;
        if contains "```python" text then
          fenced ← item (split "```python" text) 1;
          payload ← item (split "```" fenced) 0;
          Ok (strip payload)
        else if contains "```" text then
          fenced ← item (split "```" text) 1;
          payload ← item (split "```" fenced) 0;
          Ok (strip payload)
        else Ok text in
      match attempt with
      | Ok new_code => new_code
      | Raise e => "# AI Error: " +:+ exc_str e
      end
  end.

(* ================================================================== *)
(** ** host.py: the host state *)

Inductive Call :=
| CallStep (dt : Q)
| CallSetup (module : string)
| CallUpdate (module : string) (dt : Q)
| CallDraw (module : string)
| CallUiUpdate (time_delta : Q)
| CallFlip.

Record GameHost := mkGameHost {
  screen : list DrawCmd;
  game_list : list string;
  console_window : string;
  space : Space;
  current_game_module : option string;
  current_game_name : option string;
  reload_queued : bool;
  ai_agent : AIAgent;
  available_games : list string;
  (* process-wide state *)
  sys_modules : gmap string Module;
  stdout : list string;
  ai_threads : nat;
  calls : list Call
}.

Definition set_screen (v : list DrawCmd) (h : GameHost) : GameHost :=
  mkGameHost v (game_list h) (console_window h) (space h)
    (current_game_module h) (current_game_name h) (reload_queued h)
    (ai_agent h) (available_games h) (sys_modules h) (stdout h)
    (ai_threads h) (calls h).

Definition set_game_list (v : list string) (h : GameHost) : GameHost :=
  mkGameHost (screen h) v (console_window h) (space h)
    (current_game_module h) (current_game_name h) (reload_queued h)
    (ai_agent h) (available_games h) (sys_modules h) (stdout h)
    (ai_threads h) (calls h).

Definition set_console_window (v : string) (h : GameHost) : GameHost :=
  mkGameHost (screen h) (game_list h) v (space h)
    (current_game_module h) (current_game_name h) (reload_queued h)
    (ai_agent h) (available_games h) (sys_modules h) (stdout h)
    (ai_threads h) (calls h).

Definition set_space (v : Space) (h : GameHost) : GameHost :=
  mkGameHost (screen h) (game_list h) (console_window h) v
    (current_game_module h) (current_game_name h) (reload_queued h)
    (ai_agent h) (available_games h) (sys_modules h) (stdout h)
    (ai_threads h) (calls h).

Definition set_current_game_module (v : option string) (h : GameHost)
  : GameHost :=
  mkGameHost (screen h) (game_list h) (console_window h) (space h)
    v (current_game_name h) (reload_queued h)
    (ai_agent h) (available_games h) (sys_modules h) (stdout h)
    (ai_threads h) (calls h).

Definition set_current_game_name (v : option string) (h : GameHost)
  : GameHost :=
  mkGameHost (screen h) (game_list h) (console_window h) (space h)
    (current_game_module h) v (reload_queued h)
    (ai_agent h) (available_games h) (sys_modules h) (stdout h)
    (ai_threads h) (calls h).

Definition set_reload_queued (v : bool) (h : GameHost) : GameHost :=
  mkGameHost (screen h) (game_list h) (console_window h) (space h)
    (current_game_module h) (current_game_name h) v
    (ai_agent h) (available_games h) (sys_modules h) (stdout h)
    (ai_threads h) (calls h).

Definition set_available_games (v : list string) (h : GameHost) : GameHost :=
  mkGameHost (screen h) (game_list h) (console_window h) (space h)
    (current_game_module h) (current_game_name h) (reload_queued h)
    (ai_agent h) v (sys_modules h) (stdout h)
    (ai_threads h) (calls h).

Definition set_sys_modules (v : gmap string Module) (h : GameHost)
  : GameHost :=
  mkGameHost (screen h) (game_list h) (console_window h) (space h)
    (current_game_module h) (current_game_name h) (reload_queued h)
    (ai_agent h) (available_games h) v (stdout h)
    (ai_threads h) (calls h).

Definition print (line : string) (h : GameHost) : GameHost :=
  mkGameHost (screen h) (game_list h) (console_window h) (space h)
    (current_game_module h) (current_game_name h) (reload_queued h)
    (ai_agent h) (available_games h) (sys_modules h) (stdout h ++ [line])
    (ai_threads h) (calls h).

Definition start_thread (h : GameHost) : GameHost :=
  mkGameHost (screen h) (game_list h) (console_window h) (space h)
    (current_game_module h) (current_game_name h) (reload_queued h)
    (ai_agent h) (available_games h) (sys_modules h) (stdout h)
    (S (ai_threads h)) (calls h).

Definition record (c : Call) (h : GameHost) : GameHost :=
  mkGameHost (screen h) (game_list h) (console_window h) (space h)
    (current_game_module h) (current_game_name h) (reload_queued h)
    (ai_agent h) (available_games h) (sys_modules h) (stdout h)
    (ai_threads h) (calls h ++ [c]).

(* ================================================================== *)
(** ** host.py: GameHost *)

Definition log (message : string) (self : GameHost) : GameHost :=
  set_console_window message (print message self).

Definition discover_games (fs : Fs.Node) : Result (list string) :=
  if Fs.exists_ fs [GAMES_DIR] then
    items ← Fs.listdir fs [GAMES_DIR];
    Ok (List.filter
          (fun item =>
             Fs.isdir fs [GAMES_DIR; item]
             && Fs.exists_ fs [GAMES_DIR; item; "logic.py"])
          items)
  else Ok [].

Definition populate_game_list (self : GameHost) : GameHost :=
  set_game_list (available_games self) self.

Definition format_exc (e : Exc) : string :=
  "Traceback (most recent call last):" +:+ nl +:+
  exc_type e +:+ ": " +:+ exc_str e +:+ nl.

Definition hook_state (m : Module) (self : GameHost) : HookState :=
  {| hs_globals := globals m; hs_space := space self;
     hs_screen := screen self |}.

(** The state a hook leaves behind, written back to the objects it
    shares with the host. *)
Definition commit (name : string) (m : Module) (st : HookState)
    (self : GameHost) : GameHost :=
  set_screen (hs_screen st)
    (set_space (hs_space st)
       (set_sys_modules
          (<[name := set_globals (hs_globals st) m]> (sys_modules self))
          self)).

(** Lines 153-156: [reload] when the module is in [sys.modules],
    [import_module] otherwise. *)
Definition import_or_reload (finder : Finder) (module_name : string)
    (mods : gmap string Module) : gmap string Module * Result Module :=
  match mods !! module_name with
  | Some old => reload finder module_name old mods
  | None => import_module finder module_name mods
  end.

(** The dotted name of a plugin's entry module. *)
Definition logic_module (game_name : string) : string :=
  GAMES_DIR +:+ "." +:+ game_name +:+ ".logic".

(** The [except Exception] branch of [load_game]. *)
Definition load_failed (game_name : string) (e : Exc) (self : GameHost)
  : GameHost :=
  set_current_game_module None
    (log ("Error loading " +:+ game_name +:+ ":" +:+ nl +:+ format_exc e)
       self).

Definition load_game (finder : Finder) (game_name : string)
    (self : GameHost) : GameHost :=
  let self := print ("Loading game: " +:+ game_name) self in
  let self := set_current_game_name (Some game_name) self in
  let self := log ("Loading " +:+ game_name +:+ "...") self in
  (* Reset physics *)
  let self := set_space (set_gravity (0, 900)%Q new_space) self in
  let module_name := logic_module game_name in
  let '(mods, imported) :=
    import_or_reload finder module_name (sys_modules self) in
  let self := set_sys_modules mods self in
  match imported with
  | Raise e => load_failed game_name e self
  | Ok m =>
      let self := set_current_game_module (Some module_name) self in
      (* Initialize game *)
      match attr_setup m with
      | Some setup =>
          let '(st, raised) := setup tt (hook_state m self) in
          let self :=
            commit module_name m st (record (CallSetup module_name) self) in
          match raised with
          | Some e => load_failed game_name e self
          | None => log ("Loaded " +:+ game_name +:+ " successfully.") self
          end
      | None => log ("Loaded " +:+ game_name +:+ " successfully.") self
      end
  end.

Definition trigger_reload (self : GameHost) : GameHost :=
  set_reload_queued true self.

Definition process_reload (finder : Finder) (self : GameHost) : GameHost :=
  let self :=
    match current_game_name self with
    | Some (String _ _ as name) => load_game finder name self
    | _ => self
    end in
  set_reload_queued false self.

(** The body of the thread that [run_ai_fix] starts.  It reads the
    selected name from the host when it runs. *)
Definition _task (self : GameHost) (fs : Fs.Node) : Result Fs.Node :=
  match current_game_name self with
  | None =>
      Raise (mkExc "TypeError" "expected str, bytes or os.PathLike object")
  | Some name =>
      let path := [GAMES_DIR; name; "logic.py"] in
      code ← Fs.read fs path;
      let new_code :=
        suggest_fix (ai_agent self) code
          "Make this game more fun and balanced." ("Game: " +:+ name) in
      if contains "Error" new_code && (String.length new_code <? 100)%nat
      then (* Basic error check *) Ok fs
      else Fs.write fs path new_code
  end.

Definition run_ai_fix (self : GameHost) : GameHost :=
  if negb (truthy (current_game_name self)) then self
  else start_thread (log "AI is thinking..." self).

(* ================================================================== *)
(** ** host.py: ReloadHandler *)

Record ReloadHandler := mkReloadHandler {
  last_reload : Q
}.

Definition new_handler : ReloadHandler := {| last_reload := 0%Q |}.

(** A modification event, with the two readings of [time.time()] that
    handling it takes: the one compared and the one stored. *)
Record FileEvent := mkFileEvent {
  src_path : string;
  time_checked : Q;
  time_stored : Q
}.

Definition Qgtb (a b : Q) : bool := negb (Qle_bool a b).

Definition on_modified (self : ReloadHandler) (host : GameHost)
    (event : FileEvent) : ReloadHandler * GameHost :=
  if endswith (src_path event) ".py" then
    (* Debounce *)
    if Qgtb (time_checked event - last_reload self) 1 then
      ({| last_reload := time_stored event |},
       trigger_reload
         (print ("Detected change in " +:+ src_path event +:+ ", reloading...")
            host))
    else (self, host)
  else (self, host).

(** The watcher thread delivering a batch of events in order. *)
Definition deliver (self : ReloadHandler) (host : GameHost)
    (events : list FileEvent) : ReloadHandler * GameHost :=
  foldl (fun '(hd, h) ev => on_modified hd h ev) (self, host) events.

(** Whether [on_modified] accepts the event in the given handler state. *)
Definition accepted (self : ReloadHandler) (event : FileEvent) : bool :=
  endswith (src_path event) ".py"
  && Qgtb (time_checked event - last_reload self) 1.

(** Number of events of a batch that are accepted. *)
Fixpoint accepted_count (self : ReloadHandler) (host : GameHost)
    (events : list FileEvent) : nat :=
  match events with
  | [] => 0
  | ev :: rest =>
      let '(self', host') := on_modified self host ev in
      (if accepted self ev then 1 else 0) + accepted_count self' host' rest
  end.

(* ================================================================== *)
(** ** host.py: the main loop *)

Inductive UIEvent :=
| QUIT
| UI_SELECTION_LIST_NEW_SELECTION (on_game_list : bool) (selected : string)
| UI_BUTTON_PRESSED (on_ai_btn : bool)
| OtherEvent.

Definition handle_event (finder : Finder) (st : GameHost * bool)
    (event : UIEvent) : GameHost * bool :=
  let '(self, running) := st in
  match event with
  | QUIT => (self, false)
  | UI_SELECTION_LIST_NEW_SELECTION true selected =>
      if decide (Some selected = current_game_name self)
      then (self, running)
      else (load_game finder selected self, running)
  | UI_BUTTON_PRESSED true => (run_ai_fix self, running)
  | _ => (self, running)
  end.

Definition handle_events (finder : Finder) (self : GameHost)
    (events : list UIEvent) : GameHost * bool :=
  foldl (handle_event finder) (self, true) events.

(** The module the host would call hooks on, if any. *)
Definition current_module (self : GameHost) : option (string * Module) :=
  name ← current_game_module self;
  m ← sys_modules self !! name;
  Some (name, m).

(** Lines 240-244: the guarded call of [update]; what is raised is
    dropped. *)
Definition call_update (self : GameHost) : GameHost :=
  match current_module self with
  | Some (name, m) =>
      match attr_update m with
      | Some update =>
          let dt := (1 # 60)%Q in
          let '(st, _) := update dt (hook_state m self) in
          commit name m st (record (CallUpdate name dt) self)
      | None => self
      end
  | None => self
  end.

(** Lines 249-253: the guarded call of [draw]. *)
Definition call_draw (self : GameHost) : GameHost :=
  match current_module self with
  | Some (name, m) =>
      match attr_draw m with
      | Some draw =>
          let '(st, _) := draw tt (hook_state m self) in
          commit name m st (record (CallDraw name) self)
      | None => self
      end
  | None => self
  end.

(** What one iteration of the loop reads from its environment: the
    milliseconds [clock.tick(60)] returns, the pending UI events and the
    plugin code currently on disk. *)
Record TickInput := mkTickInput {
  clock_tick : Z;
  events : list UIEvent;
  finder : Finder
}.

Section Loop.

Context `{Engine}.

(** The part of an iteration before the physics update: event handling
    and hot-reload processing. *)
Definition before_update (self : GameHost) (inp : TickInput)
  : GameHost * bool :=
  let '(self, running) := handle_events (finder inp) self (events inp) in
  (* Hot Reload Processing *)
  let self :=
    if reload_queued self then process_reload (finder inp) self else self in
  (self, running).

(** The rest of the iteration: physics, hooks, UI overlay, flip. *)
Definition update_and_draw (self : GameHost) (time_delta : Q) : GameHost :=
  (* Physics Update *)
  let dt := (1 # 60)%Q in
  let self := set_space (step (space self) dt) (record (CallStep dt) self) in
  let self := call_update self in
  (* Draw *)
  let self := set_screen [Fill (RGB 30 30 30)] self in
  let self := call_draw self in
  let self := record (CallUiUpdate time_delta) self in
  let self := set_screen (screen self ++ [DrawUI]) self in
  record CallFlip self.

(** One iteration of [while running]; the second component is the value
    of [running] at the end of it. *)
Definition tick (self : GameHost) (inp : TickInput) : GameHost * bool :=
  let time_delta := (clock_tick inp # 1000)%Q in
  let '(self, running) := before_update self inp in
  (update_and_draw self time_delta, running).

(** What the process sees between two iterations: the events the watcher
    thread handled, then the input of the iteration. *)
Record Frame := mkFrame {
  fs_events : list FileEvent;
  input : TickInput
}.

Fixpoint run_loop (handler : ReloadHandler) (self : GameHost)
    (frames : list Frame) : ReloadHandler * GameHost :=
  match frames with
  | [] => (handler, self)
  | f :: rest =>
      let '(handler, self) := deliver handler self (fs_events f) in
      let '(self, running) := tick self (input f) in
      if running then run_loop handler self rest else (handler, self)
  end.

(** [GameHost.run]. *)
Definition run (self : GameHost) (frames : list Frame)
  : ReloadHandler * GameHost :=
  run_loop new_handler self frames.

End Loop.

(** The fields [__init__] assigns before discovery; [agent] is the
    [AIAgent()] the environment yields (with or without a model). *)
Definition new_host (agent : AIAgent) : GameHost :=
  {| screen := []; game_list := []; console_window := "Ready.";
     space := set_gravity (0, 900)%Q new_space;
     current_game_module := None; current_game_name := None;
     reload_queued := false; ai_agent := agent; available_games := [];
     sys_modules := ∅; stdout := []; ai_threads := 0; calls := [] |}.

(** [GameHost.__init__]. *)
Definition init (agent : AIAgent) (finder : Finder) (fs : Fs.Node)
  : Result GameHost :=
  let self := new_host agent in
  (* Discovery *)
  games ← discover_games fs;
  let self := populate_game_list (set_available_games games self) in
  match games with
  | first :: _ => Ok (load_game finder first self)
  | [] => Ok self
  end.

(* ================================================================== *)
(** ** Vocabulary of the statements *)

(** A response that is [S] wrapped in a fenced code block, with or
    without the language tag. *)
Definition fenced (lang S : string) : string :=
  "```" +:+ lang +:+ nl +:+ S +:+ nl +:+ "```".

(** The character [c] occurs in [s]. *)
Fixpoint occurs (c : ascii) (s : string) : bool :=
  match s with
  | EmptyString => false
  | String a s' => if Ascii.eqb a c then true else occurs c s'
  end.

(** The entry-point file of a plugin. *)
Definition entry_point (name : string) : list string :=
  [GAMES_DIR; name; "logic.py"].

(** The calls recorded between two states of the host. *)
Definition calls_during (before after : GameHost) : list Call :=
  drop (List.length (calls before)) (calls after).

Definition is_update (c : Call) : bool :=
  match c with CallUpdate _ _ => true | _ => false end.

Definition is_draw (c : Call) : bool :=
  match c with CallDraw _ => true | _ => false end.

Definition is_setup (c : Call) : bool :=
  match c with CallSetup _ => true | _ => false end.

Definition is_selection (ev : UIEvent) : bool :=
  match ev with
  | UI_SELECTION_LIST_NEW_SELECTION true _ => true
  | _ => false
  end.

(** The fresh world [load_game] builds before importing. *)
Definition fresh_space : Space := set_gravity (0, 900)%Q new_space.

(** The host once [load_game] has announced the load and reset the
    physics, before it imports anything. *)
Definition loading (game_name : string) (self : GameHost) : GameHost :=
  set_space fresh_space
    (log ("Loading " +:+ game_name +:+ "...")
       (set_current_game_name (Some game_name)
          (print ("Loading game: " +:+ game_name) self))).

(** The host once the entry module has been imported. *)
Definition imported (game_name : string) (mods : gmap string Module)
    (self : GameHost) : GameHost :=
  set_current_game_module (Some (logic_module game_name))
    (set_sys_modules mods (loading game_name self)).

(** The host right after the physics step of an iteration. *)
Definition stepped `{Engine} (self : GameHost) : GameHost :=
  set_space (step (space self) (1 # 60)%Q) (record (CallStep (1 # 60)%Q) self).

(** Whether an entry of the games directory is a plugin package: a
    directory holding the entry-point file. *)
Definition qualifies (entries : list (string * Fs.Node)) (name : string)
  : bool :=
  match Fs.entry name entries with
  | Some (Fs.Dir package) =>
      match Fs.entry "logic.py" package with
      | Some _ => true
      | None => false
      end
  | _ => false
  end.

(** The [update] and [draw] calls an iteration makes for the module that
    is current when the physics update starts. *)
Definition update_calls (self : GameHost) : list Call :=
  match current_module self with
  | Some (name, m) =>
      match attr_update m with
      | Some _ => [CallUpdate name (1 # 60)%Q]
      | None => []
      end
  | None => []
  end.

Definition draw_calls (self : GameHost) : list Call :=
  match current_module self with
  | Some (name, m) =>
      match attr_draw m with
      | Some _ => [CallDraw name]
      | None => []
      end
  | None => []
  end.

(** The text between the opening line and the closing fence of
    [fenced lang S]. *)
Definition inner (S : string) : string := (nl +:+ S) +:+ nl.

(* ================================================================== *)
(** ** Fixtures: stub collaborators and a small working directory *)

(** An engine that leaves the world as it is. *)
Definition still_engine : Engine :=
  {| step := fun s _ => s; rotated := fun v _ => v |}.

(** A collaborator that answers every prompt with [S] in a fenced block. *)
Definition echo_agent (S : string) : AIAgent :=
  {| model := Some (fun _ => Ok (fenced "python" S)) |}.

(** A collaborator whose call raises with the given message. *)
Definition failing_agent (message : string) : AIAgent :=
  {| model := Some (fun _ => Raise (mkExc "Exception" message)) |}.

(** No API key in the environment. *)
Definition no_key_agent : AIAgent := {| model := None |}.

(** A working directory with [games/pendulum/logic.py] holding [source]
    and a [games/scratch] directory without an entry point. *)
Definition demo_fs (source : string) : Fs.Node :=
  Fs.Dir
    [("host.py", Fs.File "");
     ("games",
      Fs.Dir
        [("pendulum", Fs.Dir [("logic.py", Fs.File source)]);
         ("scratch", Fs.Dir [("notes.txt", Fs.File "")])])].

(** The import system seeing only the pendulum plugin. *)
Definition pendulum_finder `{Engine} : Finder := fun name =>
  if String.eqb name "games.pendulum.logic" then Some Pendulum.code
  else None.

(** A module body made of [def]s for the given hooks. *)
Definition defining (setup : option (Hook unit)) (update : option (Hook Q))
    (draw : option (Hook unit)) : ModuleCode := fun ns =>
  ({| attr_setup := match setup with Some f => Some f | None => attr_setup ns end;
      attr_update := match update with Some f => Some f | None => attr_update ns end;
      attr_draw := match draw with Some f => Some f | None => attr_draw ns end;
      globals := globals ns |}, None).

(** The import system seeing one plugin with the given body. *)
Definition stub_finder (game_name : string) (code : ModuleCode) : Finder :=
  fun name => if String.eqb name (logic_module game_name) then Some code
              else None.

(** A [setup] that registers a body and then raises. *)
Definition crashing_setup : Hook unit := fun _ st =>
  let body :=
    {| mass := 1%Q; moment := moment_for_segment 1%Q (0, 0)%Q (0, 1)%Q 1%Q;
       position := (0, 0)%Q; angle := 0%Q |} in
  ({| hs_globals := hs_globals st;
      hs_space := add (hs_space st) [OBody body];
      hs_screen := hs_screen st |},
   Some (mkExc "RuntimeError" "setup failed")).

(** An [update] that raises on every call. *)
Definition raising_update : Hook Q := fun dt st =>
  (st, Some (mkExc "ZeroDivisionError" "division by zero")).

(** A [draw] that paints nothing. *)
Definition idle_draw : Hook unit := fun _ st => (st, None).

(* ================================================================== *)
(** ** Further vocabulary *)

Definition is_step (c : Call) : bool :=
  match c with CallStep _ => true | _ => false end.

Definition is_quit (ev : UIEvent) : bool :=
  match ev with QUIT => true | _ => false end.

Definition is_ai_press (ev : UIEvent) : bool :=
  match ev with UI_BUTTON_PRESSED true => true | _ => false end.

(** A batch of source-file events, each compared more than a second
    after the time stored for the one before it ([last] for the first). *)
Fixpoint spaced (last : Q) (evs : list FileEvent) : Prop :=
  match evs with
  | [] => True
  | ev :: rest =>
      endswith (src_path ev) ".py" = true
      /\ (1 < time_checked ev - last)%Q
      /\ spaced (time_stored ev) rest
  end.

(** The module the host holds, if any, is the entry module of the
    selected game and is the object [sys.modules] has under that name. *)
Definition module_matches_selection (self : GameHost) : Prop :=
  forall module_name,
    current_game_module self = Some module_name ->
    exists name,
      current_game_name self = Some name
      /\ module_name = logic_module name
      /\ is_Some (sys_modules self !! module_name).

(* ================================================================== *)
(** * Properties *)

(** ** Text primitives *)

Example split_two_fields : split "```" "a```b```c" = ["a"; "b"; "c"].
Proof. reflexivity. Qed.

Example split_overlap : split "aa" "aaa" = [""; "a"].
Proof. reflexivity. Qed.

Example strip_both : strip (nl +:+ " x = 1 " +:+ nl) = "x = 1".
Proof. reflexivity. Qed.

Example endswith_py : endswith "games/pendulum/logic.py" ".py" = true.
Proof. reflexivity. Qed.

Section Text.

Implicit Types (s t sep p : string) (c : ascii).

Lemma app_nil s : "" +:+ s = s.
Proof. reflexivity. Qed.

Lemma app_cons c s t : String c s +:+ t = String c (s +:+ t).
Proof. reflexivity. Qed.

Lemma append_assoc s t p : (s +:+ t) +:+ p = s +:+ (t +:+ p).
Proof.
  induction s as [|a s IH]; [done |]. by rewrite !app_cons, IH.
Qed.

Lemma prefix_nil_l s : String.prefix "" s = true.
Proof. by destruct s. Qed.

Lemma prefix_cons a p b s :
  String.prefix (String a p) (String b s)
  = if ascii_dec a b then String.prefix p s else false.
Proof. reflexivity. Qed.

Lemma prefix_append p s : String.prefix p (p +:+ s) = true.
Proof.
  induction p as [|a p IH]; [apply prefix_nil_l |].
  rewrite app_cons, prefix_cons.
  destruct (ascii_dec a a); [exact IH | done].
Qed.

(** A separator never straddles a character it does not contain. *)
Lemma prefix_before_foreign sep s c t :
  occurs c sep = false ->
  String.prefix sep (s +:+ String c t) = String.prefix sep s.
Proof.
  revert s. induction sep as [|a sep IH]; intros s Hc.
  { by rewrite !prefix_nil_l. }
  simpl in Hc. destruct (Ascii.eqb_spec a c) as [->|Hac]; [done |].
  destruct s as [|b s]; rewrite ?app_nil, ?app_cons, !prefix_cons.
  - destruct (ascii_dec a c); [done | done].
  - destruct (ascii_dec a b); [by apply IH | done].
Qed.

Lemma prefix_weaken p t s :
  String.prefix (p +:+ t) s = true -> String.prefix p s = true.
Proof.
  revert s. induction p as [|a p IH]; intros s.
  { by rewrite prefix_nil_l. }
  rewrite app_cons. destruct s as [|b s]; [done |].
  rewrite !prefix_cons. destruct (ascii_dec a b); [apply IH | done].
Qed.

Lemma contains_nil p : contains p "" = String.prefix p "".
Proof. reflexivity. Qed.

Lemma contains_cons p b s :
  contains p (String b s) = String.prefix p (String b s) || contains p s.
Proof. reflexivity. Qed.

Lemma contains_weaken p t s :
  contains p s = false -> contains (p +:+ t) s = false.
Proof.
  induction s as [|b s IH].
  - rewrite !contains_nil. intros Hp.
    destruct (String.prefix (p +:+ t) "") eqn:E; [|done].
    apply prefix_weaken in E. congruence.
  - rewrite !contains_cons. intros [Hp Hs]%orb_false_elim.
    rewrite (IH Hs), orb_false_r.
    destruct (String.prefix (p +:+ t) (String b s)) eqn:E; [|done].
    apply prefix_weaken in E. congruence.
Qed.

Lemma contains_before_foreign a sep s c t :
  occurs c (String a sep) = false ->
  contains (String a sep) (s +:+ String c t)
  = contains (String a sep) s || contains (String a sep) (String c t).
Proof.
  intros Hc. induction s as [|b s IH]; [done |].
  rewrite app_cons, contains_cons, <- app_cons.
  rewrite prefix_before_foreign by done.
  by rewrite IH, contains_cons, orb_assoc.
Qed.

Lemma split_from_skip sep p s :
  split_from sep (String.length p) (p +:+ s) = split_from sep 0 s.
Proof.
  induction p as [|a p IH]; [done |]. rewrite app_cons. simpl. exact IH.
Qed.

(** A text that starts with the separator has an empty first field. *)
Lemma split_leading a sep s :
  split (String a sep) (String a sep +:+ s) = "" :: split (String a sep) s.
Proof.
  unfold split. rewrite app_cons. cbn [split_from]. rewrite <- app_cons.
  rewrite prefix_append.
  replace (String.length (String a sep) - 1) with (String.length sep)
    by (cbn [String.length]; lia).
  by rewrite split_from_skip.
Qed.

(** Without an occurrence of the separator the text is one field. *)
Lemma split_absent a sep s :
  contains (String a sep) s = false -> split (String a sep) s = [s].
Proof.
  unfold split. induction s as [|b s IH]; [done |].
  rewrite contains_cons. intros [Hp Hs]%orb_false_elim.
  cbn [split_from]. by rewrite Hp, (IH Hs).
Qed.

(** A prefix free of the separator, followed by a character foreign to
    it, is glued to the first field of what follows. *)
Lemma split_before_foreign a sep s c t field fields :
  contains (String a sep) s = false ->
  occurs c (String a sep) = false ->
  split (String a sep) (String c t) = field :: fields ->
  split (String a sep) (s +:+ String c t) = (s +:+ field) :: fields.
Proof.
  intros Hs Hc Ht. unfold split in *. induction s as [|b s IH]; [done |].
  rewrite contains_cons in Hs. apply orb_false_elim in Hs as [Hp Hs].
  rewrite app_cons. cbn [split_from]. rewrite <- app_cons.
  rewrite prefix_before_foreign, Hp by done.
  by rewrite (IH Hs).
Qed.

Lemma rstrip_trailing_space s c :
  isspace c = true -> rstrip (s +:+ String c "") = rstrip s.
Proof.
  intros Hc. induction s as [|b s IH]; rewrite ?app_nil, ?app_cons; simpl.
  - by rewrite Hc.
  - by rewrite IH.
Qed.

Lemma strip_leading_space c s :
  isspace c = true -> strip (String c s) = strip s.
Proof.
  intros Hc. unfold strip. simpl.
  destruct (rstrip s) as [|b r]; simpl; by rewrite Hc.
Qed.

Lemma strip_between_newlines S : strip (nl +:+ S +:+ nl) = strip S.
Proof.
  unfold nl at 1. rewrite app_cons, app_nil.
  rewrite strip_leading_space by done.
  unfold strip, nl. by rewrite rstrip_trailing_space.
Qed.

End Text.

(** ** The payload extracted from a fenced response *)

Section Payload.

Implicit Types (S : string).

Lemma fenced_python S :
  fenced "python" S = "```python" +:+ ((nl +:+ S) +:+ String "010" "```").
Proof. unfold fenced, nl. by rewrite append_assoc. Qed.

Lemma fenced_plain S :
  fenced "" S = "```" +:+ ((nl +:+ S) +:+ String "010" "```").
Proof. unfold fenced, nl. by rewrite append_assoc. Qed.

Lemma fence_free_line S :
  contains "```" S = false -> contains "```" (nl +:+ S) = false.
Proof.
  intros HS. unfold nl. rewrite app_cons, app_nil, contains_cons, HS.
  by rewrite prefix_cons.
Qed.

Lemma fence_free_inner S :
  contains "```" S = false -> contains "```" (inner S) = false.
Proof.
  intros HS. unfold inner. unfold nl at 2.
  rewrite contains_before_foreign by done.
  by rewrite fence_free_line.
Qed.

Lemma split_fence_tail S :
  contains "```" S = false ->
  split "```" ((nl +:+ S) +:+ String "010" "```") = [inner S; ""].
Proof.
  intros HS.
  by rewrite (split_before_foreign _ _ _ _ _ nl [""])
    by (done || by apply fence_free_line).
Qed.

Lemma split_python_fence_tail S :
  contains "```" S = false ->
  split "```python" ((nl +:+ S) +:+ String "010" "```")
  = [(nl +:+ S) +:+ String "010" "```"].
Proof.
  intros HS.
  rewrite (split_before_foreign _ _ _ _ _ (String "010" "```") []); try done.
  apply (contains_weaken "```" "python"). by apply fence_free_line.
Qed.

Lemma contains_python_fence_plain S :
  contains "```" S = false -> contains "```python" (fenced "" S) = false.
Proof.
  intros HS. rewrite fenced_plain.
  rewrite !app_cons, app_nil. unfold nl at 1. rewrite !app_cons, app_nil.
  rewrite !contains_cons, !prefix_cons. simpl.
  change (String "010" (S +:+ String "010" "```"))
    with ((nl +:+ S) +:+ String "010" "```").
  rewrite contains_before_foreign by done.
  rewrite (contains_weaken "```" "python") by (by apply fence_free_line).
  done.
Qed.

(** What [suggest_fix] returns when the collaborator answers with [S]
    in a fenced block and [S] has no fence marker of its own. *)
Lemma suggest_fix_fenced (self : AIAgent) generate_content
    current_code error_log context lang S :
  model self = Some generate_content ->
  generate_content (prompt current_code error_log context)
  = Ok (fenced lang S) ->
  lang = "python" \/ lang = "" ->
  contains "```" S = false ->
  suggest_fix self current_code error_log context = strip S.
Proof.
  intros Hm Hg Hlang HS. unfold suggest_fix. rewrite Hm, Hg.
  cbn [mbind result_bind Py.bind].
  destruct Hlang as [-> | ->].
  - assert (contains "```python" (fenced "python" S) = true) as ->.
    { rewrite fenced_python, app_cons, contains_cons, <- app_cons.
      by rewrite prefix_append. }
    rewrite fenced_python, split_leading, split_python_fence_tail by done.
    cbn [item lookup list_lookup mbind result_bind Py.bind].
    rewrite split_fence_tail by done.
    cbn [item lookup list_lookup mbind result_bind Py.bind].
    unfold inner. by rewrite append_assoc, strip_between_newlines.
  - rewrite contains_python_fence_plain by done.
    assert (contains "```" (fenced "" S) = true) as ->.
    { rewrite fenced_plain, app_cons, contains_cons, <- app_cons.
      by rewrite prefix_append. }
    rewrite fenced_plain, split_leading, split_fence_tail by done.
    cbn [item lookup list_lookup mbind result_bind Py.bind].
    rewrite split_absent by (by apply fence_free_inner).
    cbn [item lookup list_lookup mbind result_bind Py.bind].
    unfold inner. by rewrite append_assoc, strip_between_newlines.
Qed.

End Payload.

(** ** The file system *)

Lemma entry_set_entry name node node' entries :
  Fs.entry name entries = Some node ->
  Fs.entry name (Fs.set_entry name node' entries) = Some node'.
Proof.
  unfold Fs.entry, Fs.set_entry.
  induction entries as [|[n x] es IH]; [done |].
  cbn [List.find fmap list_fmap fst].
  destruct (String.eqb n name) eqn:E; cbn [fst].
  - by rewrite String.eqb_refl.
  - rewrite E. exact IH.
Qed.

(** Writing over a readable file succeeds and the file then holds
    exactly what was written. *)
Lemma write_then_read path : forall fs old new,
  Fs.read fs path = Ok old ->
  exists fs', Fs.write fs path new = Ok fs' /\ Fs.read fs' path = Ok new.
Proof.
  unfold Fs.read.
  induction path as [|p rest IH]; intros fs old new Hread.
  - destruct fs; [|done]. by eexists.
  - cbn [Fs.resolve] in Hread. destruct fs as [|es]; [done |].
    destruct (Fs.entry p es) as [child|] eqn:Hentry; [|done].
    destruct (IH child old new Hread) as (child' & Hw & Hr).
    exists (Fs.Dir (Fs.set_entry p child' es)). split.
    + cbn [Fs.write]. rewrite Hentry, Hw. done.
    + cbn [Fs.resolve]. by rewrite (entry_set_entry _ _ _ _ Hentry).
Qed.

(** ** The patch pipeline *)

Lemma task_unfold (self : GameHost) fs name old :
  current_game_name self = Some name ->
  Fs.read fs (entry_point name) = Ok old ->
  _task self fs =
    let new_code :=
      suggest_fix (ai_agent self) old
        "Make this game more fun and balanced." ("Game: " +:+ name) in
    if contains "Error" new_code && (String.length new_code <? 100)%nat
    then Ok fs
    else Fs.write fs (entry_point name) new_code.
Proof.
  intros Hname Hread. unfold _task. rewrite Hname.
  fold (entry_point name). by rewrite Hread.
Qed.

(** C2 fails as stated: a source that ends with a newline comes back
    without it. The stub echoes the file's own text in a fenced block. *)
Lemma patch_round_trip_loses_newline :
  let S := "x = 1" +:+ nl in
  let self := set_current_game_name (Some "pendulum") (new_host (echo_agent S)) in
  exists fs',
    Fs.read (demo_fs S) (entry_point "pendulum") = Ok S /\
    _task self (demo_fs S) = Ok fs' /\
    Fs.read fs' (entry_point "pendulum") = Ok "x = 1" /\
    Fs.read fs' (entry_point "pendulum") <> Ok S.
Proof.
  cbv zeta. eexists.
  split; [reflexivity |]. split; [vm_compute; reflexivity |].
  split; [reflexivity | discriminate].
Qed.

(** C2, amended: when the collaborator answers with [S] in a fenced code
    block and [S] holds no fence marker, the patch leaves in the entry
    point [S] with leading and trailing whitespace trimmed, unless the
    trimmed text is a short string containing the error marker, in which
    case the file is not written. The file is byte-identical to [S] when
    moreover [S] has no surrounding whitespace and either is not such a
    short error-like string or is the text the file already held. *)
Theorem patch_writes_trimmed_source (self : GameHost) fs name
    generate_content old lang S :
  current_game_name self = Some name ->
  model (ai_agent self) = Some generate_content ->
  Fs.read fs (entry_point name) = Ok old ->
  generate_content
    (prompt old "Make this game more fun and balanced." ("Game: " +:+ name))
  = Ok (fenced lang S) ->
  lang = "python" \/ lang = "" ->
  contains "```" S = false ->
  exists fs',
    _task self fs = Ok fs' /\
    Fs.read fs' (entry_point name)
    = Ok (if contains "Error" (strip S)
             && (String.length (strip S) <? 100)%nat
          then old else strip S) /\
    (strip S = S ->
     contains "Error" S && (String.length S <? 100)%nat = false \/ old = S ->
     Fs.read fs' (entry_point name) = Ok S).
Proof.
  intros Hname Hmodel Hread Hg Hlang HS.
  rewrite (task_unfold _ _ _ _ Hname Hread). cbv zeta.
  rewrite (suggest_fix_fenced _ _ _ _ _ _ _ Hmodel Hg Hlang HS).
  destruct (contains "Error" (strip S)
            && (String.length (strip S) <? 100)%nat) eqn:Hshort.
  - exists fs. repeat split; [done |].
    intros Hstrip [Hlong | ->]; [|done].
    rewrite Hstrip in Hshort. congruence.
  - destruct (write_then_read _ _ _ (strip S) Hread) as (fs' & Hw & Hr).
    exists fs'. repeat split; [done.. |].
    intros Hstrip _. by rewrite Hr, Hstrip.
Qed.

Lemma patch_writes_trimmed_source_witness :
  exists fs',
    _task (set_current_game_name (Some "pendulum")
             (new_host (echo_agent "x = 1")))
          (demo_fs "x = 0") = Ok fs' /\
    Fs.read fs' (entry_point "pendulum") = Ok "x = 1".
Proof.
  destruct (patch_writes_trimmed_source
              (set_current_game_name (Some "pendulum")
                 (new_host (echo_agent "x = 1")))
              (demo_fs "x = 0") "pendulum"
              (fun _ => Ok (fenced "python" "x = 1")) "x = 0" "python" "x = 1")
    as (fs' & Htask & Hread & _);
    [reflexivity | reflexivity | reflexivity | reflexivity
    | left; reflexivity | reflexivity |].
  exists fs'. split; [exact Htask | exact Hread].
Defined.

(** Payload when no model is configured. *)
Lemma suggest_fix_without_model (self : AIAgent) code error_log context :
  model self = None ->
  suggest_fix self code error_log context
  = "Error: GEMINI_API_KEY not found in environment variables.".
Proof. intros Hm. unfold suggest_fix. by rewrite Hm. Qed.

(** Payload when the collaborator call raises. *)
Lemma suggest_fix_on_error (self : AIAgent) generate_content
    code error_log context e :
  model self = Some generate_content ->
  generate_content (prompt code error_log context) = Raise e ->
  suggest_fix self code error_log context = "# AI Error: " +:+ exc_str e.
Proof. intros Hm Hg. unfold suggest_fix. by rewrite Hm, Hg. Qed.

Lemma length_append (s t : string) :
  String.length (s +:+ t) = (String.length s + String.length t)%nat.
Proof.
  induction s as [|a s IH]; [done |]. rewrite app_cons. simpl. by rewrite IH.
Qed.

(** Without a model the entry point is left as it is. *)
Lemma task_without_model (self : GameHost) fs name old :
  current_game_name self = Some name ->
  Fs.read fs (entry_point name) = Ok old ->
  model (ai_agent self) = None ->
  _task self fs = Ok fs.
Proof.
  intros Hname Hread Hm. rewrite (task_unfold _ _ _ _ Hname Hread).
  cbv zeta. by rewrite suggest_fix_without_model.
Qed.

(** An error whose message is shorter than 88 characters is recognised
    and the entry point is left as it is. *)
Lemma task_on_short_error (self : GameHost) fs name old generate_content e :
  current_game_name self = Some name ->
  Fs.read fs (entry_point name) = Ok old ->
  model (ai_agent self) = Some generate_content ->
  generate_content
    (prompt old "Make this game more fun and balanced." ("Game: " +:+ name))
  = Raise e ->
  (String.length (exc_str e) < 88)%nat ->
  _task self fs = Ok fs.
Proof.
  intros Hname Hread Hm Hg Hlen. rewrite (task_unfold _ _ _ _ Hname Hread).
  cbv zeta. rewrite (suggest_fix_on_error _ _ _ _ _ _ Hm Hg).
  assert (contains "Error" ("# AI Error: " +:+ exc_str e) = true) as ->.
  { by rewrite !app_cons, app_nil, !contains_cons, !prefix_cons. }
  rewrite length_append.
  assert ((String.length "# AI Error: " + String.length (exc_str e)
           <? 100)%nat = true) as ->; [|done].
  apply Nat.ltb_lt. simpl. lia.
Qed.

(** Any payload that is not a short string containing the marker is
    written over the entry point. *)
Lemma task_writes_otherwise (self : GameHost) fs name old :
  current_game_name self = Some name ->
  Fs.read fs (entry_point name) = Ok old ->
  let new_code :=
    suggest_fix (ai_agent self) old
      "Make this game more fun and balanced." ("Game: " +:+ name) in
  contains "Error" new_code && (String.length new_code <? 100)%nat = false ->
  exists fs',
    _task self fs = Ok fs' /\ Fs.read fs' (entry_point name) = Ok new_code.
Proof.
  intros Hname Hread new_code Hcheck.
  rewrite (task_unfold _ _ _ _ Hname Hread). cbv zeta.
  fold new_code. rewrite Hcheck. by eapply write_then_read.
Qed.

(** C4, the failing input: the collaborator raises with a message of 88
    characters. The payload is the 100-character marker line, the length
    test of the error check lets it through and it replaces the plugin
    source. *)
Theorem long_error_overwrites_plugin :
  let message :=
    "404 models/gemini-pro is not found for API version v1beta, or is not supported here....." in
  let source := "def setup(space): pass" in
  let self :=
    set_current_game_name (Some "pendulum")
      (new_host (failing_agent message)) in
  String.length message = 88%nat /\
  exists fs',
    Fs.read (demo_fs source) (entry_point "pendulum") = Ok source /\
    _task self (demo_fs source) = Ok fs' /\
    Fs.read fs' (entry_point "pendulum") = Ok ("# AI Error: " +:+ message).
Proof.
  cbv zeta. split; [reflexivity |]. eexists.
  split; [reflexivity |]. split; [vm_compute; reflexivity | reflexivity].
Qed.

(** ** The reload watcher *)

Section Debounce.

Implicit Types (self : ReloadHandler) (host : GameHost) (ev : FileEvent).

Lemma Qgtb_true (a b : Q) : Qgtb a b = true <-> (b < a)%Q.
Proof.
  unfold Qgtb. rewrite negb_true_iff, <- not_true_iff_false, Qle_bool_iff.
  split; [apply Qnot_le_lt | apply Qlt_not_le].
Qed.

Lemma Qgtb_false (a b : Q) : Qgtb a b = false <-> (a <= b)%Q.
Proof. unfold Qgtb. by rewrite negb_false_iff, Qle_bool_iff. Qed.

Lemma on_modified_rejected self host ev :
  accepted self ev = false -> on_modified self host ev = (self, host).
Proof.
  unfold accepted, on_modified.
  destruct (endswith (src_path ev) ".py"); [|done].
  rewrite andb_true_l. by intros ->.
Qed.

Lemma on_modified_accepted self host ev :
  accepted self ev = true ->
  on_modified self host ev
  = ({| last_reload := time_stored ev |},
     trigger_reload
       (print ("Detected change in " +:+ src_path ev +:+ ", reloading...")
          host)).
Proof.
  unfold accepted, on_modified.
  intros [-> ->]%andb_true_iff. done.
Qed.

Lemma accepted_elapsed self ev :
  accepted self ev = true -> (1 < time_checked ev - last_reload self)%Q.
Proof. unfold accepted. intros [_ Ht]%andb_true_iff. by apply Qgtb_true. Qed.

(** Events that all come too early after [last_reload] are all dropped. *)
Lemma accepted_count_early self host (evs : list FileEvent) :
  Forall (fun ev => (time_checked ev - last_reload self <= 1)%Q) evs ->
  accepted_count self host evs = 0%nat.
Proof.
  induction 1 as [|ev evs Hev _ IH]; [done |].
  assert (accepted self ev = false) as Hrej.
  { unfold accepted. apply andb_false_iff. right. by apply Qgtb_false. }
  cbn [accepted_count]. by rewrite (on_modified_rejected _ _ _ Hrej), Hrej, IH.
Qed.

Lemma accepted_count_window self host (evs : list FileEvent) (start : Q) :
  Forall (fun ev => (time_checked ev <= time_stored ev)%Q) evs ->
  Forall (fun ev => (start <= time_checked ev)%Q
                    /\ (time_checked ev < start + 1)%Q) evs ->
  (accepted_count self host evs <= 1)%nat.
Proof.
  intros Hclock. revert self host.
  induction Hclock as [|ev evs Hev Hclock IH]; intros self host Hwin.
  { simpl. lia. }
  apply Forall_cons in Hwin as [[Hlo Hhi] Hwin].
  cbn [accepted_count]. destruct (accepted self ev) eqn:Hacc.
  - rewrite (on_modified_accepted _ _ _ Hacc).
    rewrite accepted_count_early; [lia |].
    eapply Forall_impl; [exact Hwin |]. cbn. intros ev' [Hlo' Hhi']. lra.
  - rewrite (on_modified_rejected _ _ _ Hacc). by apply IH.
Qed.

End Debounce.

(** C5: an event is accepted only if more than, hence at least, one
    second separates the clock reading taken for it from the time stored
    at the last accepted event; accepting raises the reload signal and
    stores the new time, rejecting changes nothing in the handler or the
    host; and of any batch of events whose readings lie within a window
    shorter than one second at most one is accepted. *)
Theorem debounce (self : ReloadHandler) (host : GameHost)
    (evs : list FileEvent) (start : Q) :
  Forall (fun ev => (time_checked ev <= time_stored ev)%Q) evs ->
  Forall (fun ev => (start <= time_checked ev)%Q
                    /\ (time_checked ev < start + 1)%Q) evs ->
  (accepted_count self host evs <= 1)%nat /\
  (forall hd h ev,
     accepted hd ev = true ->
     (1 <= time_checked ev - last_reload hd)%Q /\
     reload_queued (on_modified hd h ev).2 = true /\
     last_reload (on_modified hd h ev).1 = time_stored ev) /\
  (forall hd h ev,
     reload_queued (on_modified hd h ev).2 = true ->
     reload_queued h = false ->
     accepted hd ev = true) /\
  (forall hd h ev,
     accepted hd ev = false -> on_modified hd h ev = (hd, h)).
Proof.
  intros Hclock Hwin. split; [by eapply accepted_count_window |].
  split; [|split].
  - intros hd h ev Hacc. rewrite (on_modified_accepted _ _ _ Hacc).
    split; [|done]. apply Qlt_le_weak. by apply accepted_elapsed.
  - intros hd h ev Hset Hclear. destruct (accepted hd ev) eqn:Hacc; [done |].
    rewrite (on_modified_rejected _ _ _ Hacc) in Hset. simpl in Hset.
    congruence.
  - intros hd h ev. apply on_modified_rejected.
Qed.

Lemma debounce_witness :
  let burst :=
    [mkFileEvent "games/pendulum/logic.py" 1000 1000;
     mkFileEvent "games/pendulum/logic.py" (10002 # 10) (10002 # 10);
     mkFileEvent "games/pendulum/logic.py" (10009 # 10) (10009 # 10)] in
  (accepted_count new_handler (new_host no_key_agent) burst <= 1)%nat.
Proof.
  apply (debounce new_handler (new_host no_key_agent) _ 1000).
  - repeat constructor; cbn; unfold Qle; simpl; lia.
  - repeat constructor; cbn; unfold Qle, Qlt; simpl; lia.
Defined.

Example burst_accepts_first :
  accepted_count new_handler (new_host no_key_agent)
    [mkFileEvent "games/pendulum/logic.py" 1000 1000;
     mkFileEvent "games/pendulum/logic.py" (10002 # 10) (10002 # 10);
     mkFileEvent "games/pendulum/notes.txt" 1005 1005;
     mkFileEvent "games/pendulum/logic.py" 1001 1001;
     mkFileEvent "games/pendulum/logic.py" (10011 # 10) (10011 # 10)]
  = 2%nat.
Proof. reflexivity. Qed.

(** ** Loading a plugin *)

Section LoadGame.

Implicit Types (self : GameHost) (finder : Finder) (m : Module).

Lemma load_game_import_failed finder name self mods e :
  import_or_reload finder (logic_module name) (sys_modules self)
  = (mods, Raise e) ->
  load_game finder name self
  = load_failed name e (set_sys_modules mods (loading name self)).
Proof. intros Himp. unfold load_game. cbn. by rewrite Himp. Qed.

Lemma load_game_without_setup finder name self mods m :
  import_or_reload finder (logic_module name) (sys_modules self)
  = (mods, Ok m) ->
  attr_setup m = None ->
  load_game finder name self
  = log ("Loaded " +:+ name +:+ " successfully.") (imported name mods self).
Proof. intros Himp Hm. unfold load_game. cbn. by rewrite Himp, Hm. Qed.

Lemma load_game_with_setup finder name self mods m setup st raised :
  import_or_reload finder (logic_module name) (sys_modules self)
  = (mods, Ok m) ->
  attr_setup m = Some setup ->
  setup tt {| hs_globals := globals m; hs_space := fresh_space;
              hs_screen := screen self |} = (st, raised) ->
  load_game finder name self
  = let self' :=
      commit (logic_module name) m st
        (record (CallSetup (logic_module name)) (imported name mods self)) in
    match raised with
    | Some e => load_failed name e self'
    | None => log ("Loaded " +:+ name +:+ " successfully.") self'
    end.
Proof.
  intros Himp Hm Hsetup. unfold load_game. cbn. rewrite Himp, Hm.
  unfold hook_state. cbn. fold fresh_space. by rewrite Hsetup.
Qed.

(** The three ways [load_game] can end, for case analysis. *)
Lemma load_game_cases finder name self :
  (exists mods e,
     load_game finder name self
     = load_failed name e (set_sys_modules mods (loading name self)))
  \/ (exists mods,
     load_game finder name self
     = log ("Loaded " +:+ name +:+ " successfully.")
         (imported name mods self))
  \/ (exists mods m st raised,
     load_game finder name self
     = let self' :=
         commit (logic_module name) m st
           (record (CallSetup (logic_module name))
              (imported name mods self)) in
       match raised with
       | Some e => load_failed name e self'
       | None => log ("Loaded " +:+ name +:+ " successfully.") self'
       end).
Proof.
  destruct (import_or_reload finder (logic_module name) (sys_modules self))
    as [mods [m|e]] eqn:Himp.
  - destruct (attr_setup m) as [setup|] eqn:Hm.
    + destruct (setup tt {| hs_globals := globals m; hs_space := fresh_space;
                            hs_screen := screen self |})
        as [st raised] eqn:Hsetup.
      right; right. exists mods, m, st, raised.
      by eapply load_game_with_setup.
    + right; left. exists mods. by eapply load_game_without_setup.
  - left. exists mods, e. by apply load_game_import_failed.
Qed.

Lemma load_game_current_game_name finder name self :
  current_game_name (load_game finder name self) = Some name.
Proof.
  destruct (load_game_cases finder name self)
    as [(? & ? & ->) | [(? & ->) | (? & ? & ? & [?|] & ->)]]; done.
Qed.

Lemma load_game_reload_queued finder name self :
  reload_queued (load_game finder name self) = reload_queued self.
Proof.
  destruct (load_game_cases finder name self)
    as [(? & ? & ->) | [(? & ->) | (? & ? & ? & [?|] & ->)]]; done.
Qed.

(** A load records nothing but, at most, its call of [setup]. *)
Lemma load_game_calls finder name self :
  exists l, calls (load_game finder name self) = calls self ++ l
            /\ Forall (fun c => is_setup c = true) l.
Proof.
  destruct (load_game_cases finder name self)
    as [(? & ? & ->) | [(? & ->) | (? & ? & ? & [?|] & ->)]]; cbn.
  - exists []. by rewrite app_nil_r.
  - exists []. by rewrite app_nil_r.
  - eexists [_]. split; [done |]. by repeat constructor.
  - eexists [_]. split; [done |]. by repeat constructor.
Qed.

End LoadGame.

(** ** One iteration of the loop *)

Section Tick.

Context `{Engine}.

Implicit Types (self : GameHost) (m : Module) (inp : TickInput).

Lemma calls_during_app self self' (l : list Call) :
  calls self' = calls self ++ l -> calls_during self self' = l.
Proof.
  intros Heq. unfold calls_during. rewrite Heq.
  by rewrite drop_app_length.
Qed.

Lemma filter_update_setups (l : list Call) :
  Forall (fun c => is_setup c = true) l -> List.filter is_update l = [].
Proof.
  induction 1 as [|c l Hc _ IH]; [done |]. by destruct c; simpl.
Qed.

Lemma filter_draw_setups (l : list Call) :
  Forall (fun c => is_setup c = true) l -> List.filter is_draw l = [].
Proof.
  induction 1 as [|c l Hc _ IH]; [done |]. by destruct c; simpl.
Qed.

(** *** Event handling and hot reload *)

Lemma run_ai_fix_preserves self :
  calls (run_ai_fix self) = calls self
  /\ reload_queued (run_ai_fix self) = reload_queued self
  /\ current_game_module (run_ai_fix self) = current_game_module self
  /\ current_game_name (run_ai_fix self) = current_game_name self
  /\ sys_modules (run_ai_fix self) = sys_modules self
  /\ space (run_ai_fix self) = space self.
Proof. unfold run_ai_fix. by destruct (negb _). Qed.

Lemma handle_event_calls finder self running event :
  exists l,
    calls (handle_event finder (self, running) event).1 = calls self ++ l
    /\ Forall (fun c => is_setup c = true) l.
Proof.
  destruct event as [|[] selected|[]|]; cbn;
    try (exists []; by rewrite app_nil_r).
  - destruct (decide _); cbn; [exists []; by rewrite app_nil_r |].
    apply load_game_calls.
  - exists []. rewrite app_nil_r. split; [|done]. apply run_ai_fix_preserves.
Qed.

Lemma handle_event_reload_queued finder self running event :
  reload_queued (handle_event finder (self, running) event).1
  = reload_queued self.
Proof.
  destruct event as [|[] selected|[]|]; cbn; try done.
  - destruct (decide _); cbn; [done | apply load_game_reload_queued].
  - apply run_ai_fix_preserves.
Qed.

Lemma handle_events_calls finder (events : list UIEvent) :
  forall self running, exists l,
    calls (foldl (handle_event finder) (self, running) events).1
    = calls self ++ l
    /\ Forall (fun c => is_setup c = true) l.
Proof.
  induction events as [|event events IH]; intros self running; cbn [foldl].
  { exists []. by rewrite app_nil_r. }
  destruct (handle_event_calls finder self running event) as (l1 & H1 & Hl1).
  destruct (handle_event finder (self, running) event) as [self1 running1].
  destruct (IH self1 running1) as (l2 & H2 & Hl2).
  exists (l1 ++ l2). cbn in H1. rewrite H2, H1, app_assoc.
  split; [done | by apply Forall_app].
Qed.

Lemma handle_events_reload_queued finder (events : list UIEvent) :
  forall self running,
    reload_queued (foldl (handle_event finder) (self, running) events).1
    = reload_queued self.
Proof.
  induction events as [|event events IH]; intros self running; cbn [foldl];
    [done |].
  pose proof (handle_event_reload_queued finder self running event) as H1.
  destruct (handle_event finder (self, running) event) as [self1 running1].
  by rewrite IH.
Qed.

(** Events other than a selection in the game list leave the plugin,
    the world and the record of calls alone. *)
Lemma handle_events_no_selection finder (events : list UIEvent) :
  Forall (fun ev => is_selection ev = false) events ->
  forall self running,
    let self' := (foldl (handle_event finder) (self, running) events).1 in
    calls self' = calls self
    /\ current_game_module self' = current_game_module self
    /\ current_game_name self' = current_game_name self
    /\ sys_modules self' = sys_modules self
    /\ space self' = space self.
Proof.
  induction 1 as [|event events Hev _ IH]; intros self running; cbn [foldl];
    [done |].
  assert (exists running1 self1,
            handle_event finder (self, running) event = (self1, running1)
            /\ calls self1 = calls self
            /\ current_game_module self1 = current_game_module self
            /\ current_game_name self1 = current_game_name self
            /\ sys_modules self1 = sys_modules self
            /\ space self1 = space self) as (running1 & self1 & -> & Hsame).
  { destruct event as [|[] selected|[]|]; try done; cbn;
      try (by eexists _, _).
    eexists _, _. split; [done |].
    by destruct (run_ai_fix_preserves self) as (? & _ & ? & ? & ? & ?). }
  destruct Hsame as (E1 & E2 & E3 & E4 & E5).
  destruct (IH self1 running1) as (I1 & I2 & I3 & I4 & I5).
  cbv zeta. by rewrite I1, I2, I3, I4, I5.
Qed.

Lemma process_reload_calls finder self :
  exists l, calls (process_reload finder self) = calls self ++ l
            /\ Forall (fun c => is_setup c = true) l.
Proof.
  unfold process_reload.
  destruct (current_game_name self) as [[|c name]|]; cbn;
    try (exists []; by rewrite app_nil_r).
  apply load_game_calls.
Qed.

Lemma before_update_calls self inp :
  exists l, calls (before_update self inp).1 = calls self ++ l
            /\ Forall (fun c => is_setup c = true) l.
Proof.
  unfold before_update, handle_events.
  destruct (handle_events_calls (finder inp) (events inp) self true)
    as (l1 & H1 & Hl1).
  destruct (foldl _ _ _) as [self1 running1]. cbn in *.
  destruct (reload_queued self1); [|by exists l1].
  destruct (process_reload_calls (finder inp) self1) as (l2 & H2 & Hl2).
  exists (l1 ++ l2). rewrite H2, H1, app_assoc.
  split; [done | by apply Forall_app].
Qed.

(** The reload signal is never set once the reload check is passed. *)
Lemma before_update_reload_queued self inp :
  reload_queued (before_update self inp).1 = false.
Proof.
  unfold before_update. destruct (handle_events _ _ _) as [self1 running1].
  cbn. by destruct (reload_queued self1) eqn:E.
Qed.

(** *** Physics, hooks and presentation *)

Lemma current_module_commit self name m st :
  current_game_module self = Some name ->
  current_module (commit name m st self)
  = Some (name, set_globals (hs_globals st) m).
Proof.
  intros Hname. unfold current_module, commit. cbn. rewrite Hname. cbn.
  by rewrite lookup_insert_eq.
Qed.

Lemma current_module_name self name m :
  current_module self = Some (name, m) ->
  current_game_module self = Some name /\ sys_modules self !! name = Some m.
Proof.
  unfold current_module. destruct (current_game_module self) as [n|]; [|done].
  cbn. destruct (sys_modules self !! n) eqn:E; [|done]. cbn. naive_solver.
Qed.

Lemma call_update_spec self :
  calls (call_update self) = calls self ++ update_calls self
  /\ draw_calls (call_update self) = draw_calls self
  /\ current_game_module (call_update self) = current_game_module self
  /\ current_game_name (call_update self) = current_game_name self
  /\ reload_queued (call_update self) = reload_queued self.
Proof.
  unfold call_update, update_calls.
  destruct (current_module self) as [[name m]|] eqn:Hcur;
    [|by rewrite app_nil_r].
  destruct (attr_update m) as [update|]; [|by rewrite app_nil_r].
  destruct (update _ _) as [st raised].
  apply current_module_name in Hcur as Hname. destruct Hname as [Hname _].
  repeat split; try done.
  unfold draw_calls. rewrite current_module_commit, Hcur; done.
Qed.

Lemma call_draw_spec self :
  calls (call_draw self) = calls self ++ draw_calls self
  /\ current_game_module (call_draw self) = current_game_module self
  /\ current_game_name (call_draw self) = current_game_name self
  /\ reload_queued (call_draw self) = reload_queued self.
Proof.
  unfold call_draw, draw_calls.
  destruct (current_module self) as [[name m]|] eqn:Hcur;
    [|by rewrite app_nil_r].
  destruct (attr_draw m) as [draw|]; [|by rewrite app_nil_r].
  by destruct (draw _ _) as [st raised].
Qed.

Lemma update_and_draw_spec self time_delta :
  let self' := update_and_draw self time_delta in
  calls self'
  = calls self ++ CallStep (1 # 60) :: update_calls self ++ draw_calls self
      ++ [CallUiUpdate time_delta; CallFlip]
  /\ current_game_module self' = current_game_module self
  /\ current_game_name self' = current_game_name self
  /\ reload_queued self' = reload_queued self.
Proof.
  unfold update_and_draw. cbn.
  set (stepped := set_space _ (record _ self)).
  destruct (call_update_spec stepped) as (Hc1 & Hd1 & Hm1 & Hn1 & Hr1).
  set (filled := set_screen _ (call_update stepped)).
  destruct (call_draw_spec filled) as (Hc2 & Hm2 & Hn2 & Hr2).
  rewrite Hc2, Hm2, Hn2, Hr2. cbn. rewrite Hc1, Hm1, Hn1, Hr1. cbn.
  change (draw_calls filled) with (draw_calls (call_update stepped)).
  rewrite Hd1.
  change (update_calls stepped) with (update_calls self).
  change (draw_calls stepped) with (draw_calls self).
  repeat split. by rewrite <- !app_assoc.
Qed.

(** Everything an iteration records: the [setup] calls of the loads it
    performed, then the physics step, the hooks and the presentation. *)
Lemma tick_calls self inp :
  exists l,
    Forall (fun c => is_setup c = true) l /\
    calls_during self (tick self inp).1
    = l ++ CallStep (1 # 60)
        :: update_calls (before_update self inp).1
        ++ draw_calls (before_update self inp).1
        ++ [CallUiUpdate (clock_tick inp # 1000); CallFlip].
Proof.
  unfold tick.
  destruct (before_update_calls self inp) as (l & Hl & Hsetups).
  destruct (before_update self inp) as [self1 running]. cbn in *.
  exists l. split; [done |]. apply calls_during_app.
  destruct (update_and_draw_spec self1 (clock_tick inp # 1000)) as [-> _].
  by rewrite Hl, <- app_assoc.
Qed.

End Tick.

(** ** Discovery and start-up *)

Lemma resolve_cons fs p rest :
  Fs.resolve fs (p :: rest)
  = match Fs.resolve fs [p] with
    | Some child => Fs.resolve child rest
    | None => None
    end.
Proof.
  cbn [Fs.resolve]. destruct fs as [|es]; [done |].
  by destruct (Fs.entry p es).
Qed.

Lemma discover_games_listing fs es :
  Fs.resolve fs [GAMES_DIR] = Some (Fs.Dir es) ->
  discover_games fs = Ok (List.filter (qualifies es) es.*1).
Proof.
  intros Hroot. unfold discover_games, Fs.exists_, Fs.listdir.
  rewrite Hroot. cbn [mbind result_bind Py.bind]. f_equal.
  apply List.filter_ext. intros name.
  unfold Fs.isdir, Fs.exists_, qualifies.
  rewrite (resolve_cons fs GAMES_DIR [name; "logic.py"]).
  rewrite (resolve_cons fs GAMES_DIR [name]), Hroot.
  cbn [Fs.resolve].
  destruct (Fs.entry name es) as [[|package]|]; [done | | done].
  by destruct (Fs.entry "logic.py" package).
Qed.

(** C10: without a games root, discovery returns the empty list, raising
    nothing, and the host starts with no plugin loaded or selected. *)
Theorem no_games_root (agent : AIAgent) (finder : Finder) (fs : Fs.Node) :
  Fs.exists_ fs [GAMES_DIR] = false ->
  discover_games fs = Ok [] /\
  exists self,
    init agent finder fs = Ok self /\
    available_games self = [] /\
    current_game_module self = None /\
    current_game_name self = None /\
    sys_modules self = ∅ /\
    calls self = [].
Proof.
  intros Hroot.
  assert (discover_games fs = Ok []) as Hnone.
  { unfold discover_games. by rewrite Hroot. }
  split; [done |]. unfold init. rewrite Hnone.
  cbn [mbind result_bind Py.bind]. by eexists.
Qed.

Lemma no_games_root_witness :
  discover_games (Fs.Dir [("host.py", Fs.File "")]) = Ok [] /\
  exists self,
    init no_key_agent (fun _ => None) (Fs.Dir [("host.py", Fs.File "")])
    = Ok self /\
    current_game_module self = None.
Proof.
  destruct (no_games_root no_key_agent (fun _ => None)
              (Fs.Dir [("host.py", Fs.File "")]))
    as (Hdisc & self & Hinit & _ & Hmod & _); [reflexivity |].
  split; [exact Hdisc |]. exists self. split; [exact Hinit | exact Hmod].
Defined.

(** C8: over a games root that is a directory, discovery returns, in
    listing order, exactly the entries that are directories holding the
    entry-point file; over [pendulum/] (with it) and [scratch/] (without)
    that is [pendulum] alone, and loading [pendulum] leaves a world with
    one body and one pin joint. *)
Theorem discovery_and_pendulum `{Engine} (agent : AIAgent) (fs : Fs.Node)
    (es : list (string * Fs.Node)) (source : string) :
  Fs.resolve fs [GAMES_DIR] = Some (Fs.Dir es) ->
  discover_games fs = Ok (List.filter (qualifies es) es.*1) /\
  (forall name,
     In name (List.filter (qualifies es) es.*1) <->
     exists package,
       Fs.entry name es = Some (Fs.Dir package) /\
       is_Some (Fs.entry "logic.py" package)) /\
  discover_games (demo_fs source) = Ok ["pendulum"] /\
  let self := load_game pendulum_finder "pendulum" (new_host agent) in
  current_game_module self = Some "games.pendulum.logic" /\
  List.length (bodies (space self)) = 1%nat /\
  List.length (shapes (space self)) = 1%nat /\
  constraints (space self)
  = [PinJoint StaticBody (BodyAt 0) (400, 300)%Q (0, 0)%Q].
Proof.
  intros Hroot. split; [by apply discover_games_listing |].
  split; [|by vm_compute].
  intros name. rewrite List.filter_In. unfold qualifies. split.
  - intros [_ Hq].
    destruct (Fs.entry name es) as [[|package]|]; [done | | done].
    exists package. split; [done |].
    by destruct (Fs.entry "logic.py" package).
  - intros (package & Hentry & [node Hnode]). rewrite Hentry, Hnode.
    split; [|done]. unfold Fs.entry in Hentry.
    destruct (List.find _ es) as [[n x]|] eqn:Hfind; [|done].
    apply List.find_some in Hfind as [Hin Heq]. cbn in Heq.
    apply String.eqb_eq in Heq as ->.
    apply list_elem_of_In, list_elem_of_fmap. exists (name, x).
    split; [done |]. by apply list_elem_of_In.
Qed.

Lemma discovery_and_pendulum_witness :
  discover_games (demo_fs "") = Ok ["pendulum"] /\
  List.length
    (bodies (space (load_game (@pendulum_finder still_engine) "pendulum"
                      (new_host no_key_agent)))) = 1%nat.
Proof.
  destruct (@discovery_and_pendulum still_engine no_key_agent (demo_fs "")
              [("pendulum", Fs.Dir [("logic.py", Fs.File "")]);
               ("scratch", Fs.Dir [("notes.txt", Fs.File "")])] "")
    as (_ & _ & Hdisc & _ & Hbodies & _); [reflexivity |].
  split; [exact Hdisc | exact Hbodies].
Defined.

(** ** Failed and partial loads *)

Lemma import_or_reload_ok finder name (mods0 mods : gmap string Module) m :
  import_or_reload finder name mods0 = (mods, Ok m) -> mods !! name = Some m.
Proof.
  unfold import_or_reload, reload, import_module.
  destruct (mods0 !! name) as [old|]; destruct (finder name) as [code|];
    try done.
  - destruct (code old) as [m' [e|]]; [done |].
    intros [= <- <-]. apply lookup_insert_eq.
  - destruct (code empty_module) as [m' [e|]]; [done |].
    intros [= <- <-]. apply lookup_insert_eq.
Qed.

(** C1 fails as stated: what [setup] registered before raising is still
    in the world the host goes on stepping. *)
Lemma failed_setup_keeps_bodies :
  let finder :=
    stub_finder "crash" (defining (Some crashing_setup) None None) in
  let self := load_game finder "crash" (new_host no_key_agent) in
  current_game_module self = None /\
  List.length (bodies (space self)) = 1%nat /\
  bodies (space self) <> [].
Proof. by vm_compute. Qed.

(** C1, amended: when the import of the entry module or its [setup] hook
    raises during [load_game], the host is left with no loaded plugin,
    whatever module was active before, and shows the error.  After a
    failed import the world is the fresh, empty one; after a failed
    [setup] it is the fresh world as [setup] left it when it raised. *)
Theorem failed_load_leaves_no_plugin (finder : Finder) (name : string)
    (self : GameHost) :
  let self' := load_game finder name self in
  (forall mods e,
     import_or_reload finder (logic_module name) (sys_modules self)
     = (mods, Raise e) ->
     current_game_module self' = None /\
     current_game_name self' = Some name /\
     space self' = fresh_space /\
     console_window self'
     = "Error loading " +:+ name +:+ ":" +:+ nl +:+ format_exc e) /\
  (forall mods m setup st e,
     import_or_reload finder (logic_module name) (sys_modules self)
     = (mods, Ok m) ->
     attr_setup m = Some setup ->
     setup tt {| hs_globals := globals m; hs_space := fresh_space;
                 hs_screen := screen self |} = (st, Some e) ->
     current_game_module self' = None /\
     current_game_name self' = Some name /\
     space self' = hs_space st /\
     console_window self'
     = "Error loading " +:+ name +:+ ":" +:+ nl +:+ format_exc e) /\
  bodies fresh_space = [] /\ shapes fresh_space = []
  /\ constraints fresh_space = [].
Proof.
  cbv zeta. split; [|split; [|done]].
  - intros mods e Himp. by rewrite (load_game_import_failed _ _ _ _ _ Himp).
  - intros mods m setup st e Himp Hm Hsetup.
    by rewrite (load_game_with_setup _ _ _ _ _ _ _ _ Himp Hm Hsetup).
Qed.

Lemma failed_load_leaves_no_plugin_witness :
  let self :=
    load_game (fun _ => None) "pendulum"
      (set_current_game_module (Some "games.pendulum.logic")
         (new_host no_key_agent)) in
  current_game_module self = None /\ space self = fresh_space.
Proof.
  destruct (failed_load_leaves_no_plugin (fun _ => None) "pendulum"
              (set_current_game_module (Some "games.pendulum.logic")
                 (new_host no_key_agent))) as [Himport _].
  destruct (Himport ∅ (module_not_found "games.pendulum.logic"))
    as (Hmod & _ & Hspace & _); [reflexivity |].
  split; [exact Hmod | exact Hspace].
Defined.

Section Hooks.

Context `{Engine}.

Implicit Types (self : GameHost) (m : Module) (inp : TickInput).

Lemma call_update_current self name m :
  current_module self = Some (name, m) ->
  exists g, current_module (call_update self) = Some (name, set_globals g m).
Proof.
  intros Hcur. unfold call_update. rewrite Hcur.
  apply current_module_name in Hcur as Hname. destruct Hname as [Hname Hm].
  destruct (attr_update m) as [update|].
  - destruct (update _ _) as [st raised]. exists (hs_globals st).
    by apply current_module_commit.
  - exists (globals m). rewrite Hcur. by destruct m.
Qed.

Lemma call_draw_current self name m :
  current_module self = Some (name, m) ->
  exists g, current_module (call_draw self) = Some (name, set_globals g m).
Proof.
  intros Hcur. unfold call_draw. rewrite Hcur.
  apply current_module_name in Hcur as Hname. destruct Hname as [Hname Hm].
  destruct (attr_draw m) as [draw|].
  - destruct (draw _ _) as [st raised]. exists (hs_globals st).
    by apply current_module_commit.
  - exists (globals m). rewrite Hcur. by destruct m.
Qed.

(** The rest of an iteration keeps the current module object and its
    hooks; only its globals may change. *)
Lemma update_and_draw_current self time_delta name m :
  current_module self = Some (name, m) ->
  exists g,
    current_module (update_and_draw self time_delta)
    = Some (name, set_globals g m).
Proof.
  intros Hcur. unfold update_and_draw. cbv zeta.
  destruct (call_update_current (stepped self) name m Hcur) as [g1 H1].
  fold (stepped self).
  destruct (call_draw_current
              (set_screen [Fill (RGB 30 30 30)] (call_update (stepped self)))
              name _ H1) as [g2 H2].
  exists g2. exact H2.
Qed.

Lemma update_calls_some self name m update :
  current_module self = Some (name, m) ->
  attr_update m = Some update ->
  update_calls self = [CallUpdate name (1 # 60)%Q].
Proof. intros Hcur Hm. unfold update_calls. by rewrite Hcur, Hm. Qed.

Lemma draw_calls_some self name m draw :
  current_module self = Some (name, m) ->
  attr_draw m = Some draw ->
  draw_calls self = [CallDraw name].
Proof. intros Hcur Hm. unfold draw_calls. by rewrite Hcur, Hm. Qed.

Lemma update_calls_none self name m :
  current_module self = Some (name, m) ->
  attr_update m = None ->
  update_calls self = [] /\ call_update self = self.
Proof.
  intros Hcur Hm. unfold update_calls, call_update. by rewrite Hcur, Hm.
Qed.

Lemma draw_calls_none self name m :
  current_module self = Some (name, m) ->
  attr_draw m = None ->
  draw_calls self = [] /\ call_draw self = self.
Proof.
  intros Hcur Hm. unfold draw_calls, call_draw. by rewrite Hcur, Hm.
Qed.

Lemma filter_update_draw_calls self :
  List.filter is_update (draw_calls self) = [].
Proof.
  unfold draw_calls. destruct (current_module self) as [[n m]|]; [|done].
  by destruct (attr_draw m).
Qed.

Lemma filter_draw_update_calls self :
  List.filter is_draw (update_calls self) = [].
Proof.
  unfold update_calls. destruct (current_module self) as [[n m]|]; [|done].
  by destruct (attr_update m).
Qed.

(** The [update] calls of an iteration are those made for the module
    that is current once events and reload have been processed. *)
Lemma tick_update_calls self inp :
  List.filter is_update (calls_during self (tick self inp).1)
  = List.filter is_update (update_calls (before_update self inp).1).
Proof.
  destruct (tick_calls self inp) as (l & Hl & ->).
  rewrite List.filter_app, (filter_update_setups _ Hl). cbn.
  by rewrite !List.filter_app, filter_update_draw_calls, app_nil_r.
Qed.

Lemma tick_draw_calls self inp :
  List.filter is_draw (calls_during self (tick self inp).1)
  = List.filter is_draw (draw_calls (before_update self inp).1).
Proof.
  destruct (tick_calls self inp) as (l & Hl & ->).
  rewrite List.filter_app, (filter_draw_setups _ Hl). cbn.
  by rewrite !List.filter_app, filter_draw_update_calls, app_nil_r.
Qed.

End Hooks.

(** ** Hooks across iterations *)

(** C3, as far as the code goes: on an iteration where a module is
    current and has an [update] hook once events and reload have been
    processed, [update] is called exactly once, and its argument is the
    constant [1/60] whatever [clock.tick] measured. *)
Theorem update_once_with_fixed_dt `{Engine} (self : GameHost)
    (inp : TickInput) (name : string) (m : Module) (update : Hook Q) :
  current_module (before_update self inp).1 = Some (name, m) ->
  attr_update m = Some update ->
  List.filter is_update (calls_during self (tick self inp).1)
  = [CallUpdate name (1 # 60)%Q].
Proof.
  intros Hcur Hm.
  by rewrite tick_update_calls, (update_calls_some _ _ _ _ Hcur Hm).
Qed.

(** The failing input of C3: a frame that took 100 ms. *)
Lemma update_once_with_fixed_dt_witness :
  let self :=
    load_game (@pendulum_finder still_engine) "pendulum"
      (new_host no_key_agent) in
  let inp := mkTickInput 100 [] (@pendulum_finder still_engine) in
  calls_during self (@tick still_engine self inp).1
  = [CallStep (1 # 60)%Q;
     CallUpdate "games.pendulum.logic" (1 # 60)%Q;
     CallDraw "games.pendulum.logic";
     CallUiUpdate (100 # 1000)%Q;
     CallFlip] /\
  List.filter is_update (calls_during self (@tick still_engine self inp).1)
  = [CallUpdate "games.pendulum.logic" (1 # 60)%Q] /\
  ~ ((1 # 60) == (100 # 1000))%Q.
Proof.
  cbv zeta. split; [by vm_compute |]. split; [|by vm_compute].
  apply (@update_once_with_fixed_dt still_engine _ _ _
           (mkModule (Some Pendulum.setup) (Some Pendulum.update)
              (Some (@Pendulum.draw still_engine))
              (<["objects" := VDict [("body", VBody (BodyAt 0));
                                     ("length", VInt 100)]]> ∅))
           Pendulum.update);
    reflexivity.
Defined.

(** C6: when [update] raises on an iteration, the exception goes no
    further than the host: the state the hook left is kept, [draw] is
    called later in the same iteration, the module stays the current one
    with its hooks, the loop flag is what event handling made it, and the
    next iteration calls [update] again. *)
Theorem tick_isolation `{Engine} (self : GameHost) (inp : TickInput)
    (name : string) (m : Module) (update : Hook Q) (draw : Hook unit)
    (st : HookState) (e : Exc) :
  let self1 := (before_update self inp).1 in
  current_module self1 = Some (name, m) ->
  attr_update m = Some update ->
  attr_draw m = Some draw ->
  update (1 # 60)%Q (hook_state m (stepped self1)) = (st, Some e) ->
  let self' := (tick self inp).1 in
  call_update (stepped self1)
  = commit name m st (record (CallUpdate name (1 # 60)%Q) (stepped self1)) /\
  (exists l,
     Forall (fun c => is_setup c = true) l /\
     calls_during self self'
     = l ++ [CallStep (1 # 60)%Q; CallUpdate name (1 # 60)%Q; CallDraw name;
             CallUiUpdate (clock_tick inp # 1000)%Q; CallFlip]) /\
  (exists g, current_module self' = Some (name, set_globals g m)) /\
  (tick self inp).2 = (before_update self inp).2 /\
  (forall inp2,
     Forall (fun ev => is_selection ev = false) (events inp2) ->
     In (CallUpdate name (1 # 60)%Q)
        (calls_during self' (tick self' inp2).1)).
Proof.
  intros self1 Hcur Hupd Hdraw Hraise self'.
  assert (exists g, current_module self' = Some (name, set_globals g m))
    as [g Hcur'].
  { subst self' self1. unfold tick.
    destruct (before_update self inp) as [s1 running]. cbn [fst snd] in *.
    by apply (update_and_draw_current s1 (clock_tick inp # 1000)). }
  assert (reload_queued self' = false) as Hquiet.
  { subst self'. unfold tick.
    pose proof (before_update_reload_queued self inp) as Hq.
    destruct (before_update self inp) as [s1 running]. cbn [fst snd] in *.
    by destruct (update_and_draw_spec s1 (clock_tick inp # 1000))
      as (_ & _ & _ & ->). }
  split; [|split; [|split; [|split]]].
  - unfold call_update.
    change (current_module (stepped self1)) with (current_module self1).
    by rewrite Hcur, Hupd, Hraise.
  - destruct (tick_calls self inp) as (l & Hl & Hcalls).
    exists l. split; [done |]. subst self'. rewrite Hcalls.
    fold self1. by rewrite (update_calls_some _ _ _ _ Hcur Hupd),
      (draw_calls_some _ _ _ _ Hcur Hdraw).
  - by exists g.
  - unfold tick. by destruct (before_update self inp).
  - intros inp2 Hev.
    destruct (tick_calls self' inp2) as (l & Hl & ->).
    assert (current_module (before_update self' inp2).1
            = Some (name, set_globals g m)) as Hcur2.
    { unfold before_update, handle_events.
      pose proof (handle_events_no_selection (finder inp2) (events inp2)
                    Hev self' true) as (_ & Hmod & _ & Hmods & _).
      pose proof (handle_events_reload_queued (finder inp2) (events inp2)
                    self' true) as Hq.
      destruct (foldl _ _ _) as [s2 running2]. cbn [fst snd] in *.
      rewrite Hq, Hquiet. cbn [fst]. unfold current_module in *.
      by rewrite Hmod, Hmods. }
    rewrite (update_calls_some _ _ (set_globals g m) update Hcur2 Hupd).
    apply in_or_app. right. right. by left.
Qed.

Lemma tick_isolation_witness :
  let finder :=
    stub_finder "faulty"
      (defining None (Some raising_update) (Some idle_draw)) in
  let self := load_game finder "faulty" (new_host no_key_agent) in
  let inp := mkTickInput 16 [] finder in
  let self' := (@tick still_engine self inp).1 in
  In (CallDraw "games.faulty.logic") (calls_during self self') /\
  current_game_module self' = Some "games.faulty.logic" /\
  In (CallUpdate "games.faulty.logic" (1 # 60)%Q)
     (calls_during self' (@tick still_engine self' inp).1).
Proof.
  cbv zeta.
  set (finder := stub_finder "faulty"
                   (defining None (Some raising_update) (Some idle_draw))).
  set (self := load_game finder "faulty" (new_host no_key_agent)).
  set (inp := mkTickInput 16 [] finder).
  pose proof (@tick_isolation still_engine self inp "games.faulty.logic"
              (mkModule None (Some raising_update) (Some idle_draw) ∅)
              raising_update idle_draw
              (hook_state (mkModule None (Some raising_update)
                             (Some idle_draw) ∅)
                 (@stepped still_engine (before_update self inp).1))
              (mkExc "ZeroDivisionError" "division by zero")) as T.
  cbv zeta in T.
  assert (H1 : current_module (before_update self inp).1 =
      Some
        ("games.faulty.logic",
         {|
           attr_setup := None;
           attr_update := Some raising_update;
           attr_draw := Some idle_draw;
           globals := ∅
         |})) by (by vm_compute).
  specialize (T H1 eq_refl eq_refl).
  assert (H2: raising_update (1 # 60)%Q
        (hook_state
           {|
             attr_setup := None;
             attr_update := Some raising_update;
             attr_draw := Some idle_draw;
             globals := ∅
           |} (@stepped still_engine (before_update self inp).1)) =
      (hook_state
         {|
           attr_setup := None;
           attr_update := Some raising_update;
           attr_draw := Some idle_draw;
           globals := ∅
         |} (@stepped still_engine (before_update self inp).1),
       Some {| exc_type := "ZeroDivisionError"; exc_str := "division by zero" |})) by reflexivity.
  specialize (T H2).
  destruct T as (_ & (l & _ & Hcalls) & [g Hcur] & _ & Hnext).
  split; [|split].
  - rewrite Hcalls. apply in_or_app. right. right. right. by left.
  - by apply current_module_name in Hcur as [Hname _].
  - apply Hnext. constructor.
Defined.

(** C9: a module that lacks hooks still loads. Without [setup] the load
    succeeds and the world stays the fresh, empty one; with a [setup]
    that returns, the load succeeds whatever other hooks are missing; the
    module is then the current one, and an iteration makes no [update]
    call when [update] is missing and no [draw] call when [draw] is
    missing, leaving the module current. *)
Theorem missing_hooks_are_skipped `{Engine} (finder : Finder)
    (name : string) (self : GameHost) (mods : gmap string Module)
    (m : Module) :
  import_or_reload finder (logic_module name) (sys_modules self)
  = (mods, Ok m) ->
  let self' := load_game finder name self in
  (attr_setup m = None ->
   current_module self' = Some (logic_module name, m) /\
   space self' = fresh_space /\
   bodies (space self') = [] /\ shapes (space self') = [] /\
   constraints (space self') = [] /\
   Forall (fun c => is_setup c = false) (calls_during self self') /\
   console_window self' = "Loaded " +:+ name +:+ " successfully.") /\
  (forall setup st,
     attr_setup m = Some setup ->
     setup tt {| hs_globals := globals m; hs_space := fresh_space;
                 hs_screen := screen self |} = (st, None) ->
     current_module self'
     = Some (logic_module name, set_globals (hs_globals st) m) /\
     console_window self' = "Loaded " +:+ name +:+ " successfully.") /\
  (forall host inp n m0,
     current_module (before_update host inp).1 = Some (n, m0) ->
     (attr_update m0 = None ->
      List.filter is_update (calls_during host (tick host inp).1) = []) /\
     (attr_draw m0 = None ->
      List.filter is_draw (calls_during host (tick host inp).1) = []) /\
     exists g, current_module (tick host inp).1 = Some (n, set_globals g m0)).
Proof.
  intros Himp self'. subst self'.
  pose proof (import_or_reload_ok _ _ _ _ _ Himp) as Hlookup.
  split; [|split].
  - intros Hm. rewrite (load_game_without_setup _ _ _ _ _ Himp Hm).
    split; [|split; [|split; [|split; [|split; [|split]]]]].
    { unfold current_module. cbn. by rewrite Hlookup. }
    { reflexivity. }
    { reflexivity. }
    { reflexivity. }
    { reflexivity. }
    { rewrite (calls_during_app _ _ []); [constructor |]. cbn. by rewrite app_nil_r. }
    { reflexivity. }
  - intros setup st Hm Hsetup.
    rewrite (load_game_with_setup _ _ _ _ _ _ _ _ Himp Hm Hsetup).
    cbv beta iota zeta. split; [|reflexivity].
    unfold current_module, commit. cbn. by rewrite lookup_insert_eq.
  - intros host inp n m0 Hcur. split; [|split].
    + intros Hm. rewrite tick_update_calls.
      by destruct (update_calls_none _ _ _ Hcur Hm) as [-> _].
    + intros Hm. rewrite tick_draw_calls.
      by destruct (draw_calls_none _ _ _ Hcur Hm) as [-> _].
    + unfold tick. destruct (before_update host inp) as [s1 running].
      cbn [fst snd] in *. by apply (update_and_draw_current s1 (clock_tick inp # 1000)).
Qed.

Lemma missing_hooks_are_skipped_witness :
  let finder := stub_finder "bare" (defining None None None) in
  let self := load_game finder "bare" (new_host no_key_agent) in
  current_module self = Some ("games.bare.logic", empty_module) /\
  space self = fresh_space /\
  calls_during self
    (@tick still_engine self (mkTickInput 16 [] finder)).1
  = [CallStep (1 # 60)%Q; CallUiUpdate (16 # 1000)%Q; CallFlip].
Proof.
  pose proof (@missing_hooks_are_skipped still_engine
                (stub_finder "bare" (defining None None None)) "bare"
                (new_host no_key_agent)
                (<["games.bare.logic" := empty_module]> ∅) empty_module) as T.
  cbv zeta in T.
  assert (import_or_reload (stub_finder "bare" (defining None None None))
            (logic_module "bare") (sys_modules (new_host no_key_agent))
          = (<["games.bare.logic" := empty_module]> ∅, Ok empty_module))
    as Himp by (vm_compute; reflexivity).
  destruct (T Himp) as (Hload & _ & _).
  destruct (Hload eq_refl) as (Hcur & Hspace & _).
  cbv zeta. split; [exact Hcur |]. split; [exact Hspace |].
  vm_compute. reflexivity.
Defined.

(** ** Hot reload *)

(** C7 fails as stated: with the signal set but no plugin selected, the
    host clears the signal and loads nothing, although the import system
    has a plugin to offer. *)
Lemma reload_signal_without_selection :
  let self := trigger_reload (new_host no_key_agent) in
  let inp := mkTickInput 16 [] (@pendulum_finder still_engine) in
  reload_queued self = true /\
  (before_update self inp).1 = new_host no_key_agent /\
  stdout (@tick still_engine self inp).1 = [] /\
  current_game_module (@tick still_engine self inp).1 = None /\
  reload_queued (@tick still_engine self inp).1 = false.
Proof. cbv zeta. repeat split; vm_compute; reflexivity. Qed.

(** C7, amended: when the reload signal is set at the start of an
    iteration, the host clears it after event handling; if a plugin is
    selected at that point it performs exactly one [load_game], of that
    selected name, and otherwise loads nothing.  The watcher never touches
    the selected name, so the target does not depend on the file whose
    modification raised the signal. *)
Theorem reload_targets_selected_plugin `{Engine} (self : GameHost)
    (inp : TickInput) :
  reload_queued self = true ->
  let self1 := (handle_events (finder inp) self (events inp)).1 in
  let after := (before_update self inp).1 in
  reload_queued after = false /\
  reload_queued (tick self inp).1 = false /\
  (forall name,
     name <> "" ->
     current_game_name self1 = Some name ->
     after = set_reload_queued false (load_game (finder inp) name self1) /\
     current_game_name (tick self inp).1 = Some name) /\
  (truthy (current_game_name self1) = false ->
   after = set_reload_queued false self1) /\
  (forall hd ev,
     current_game_name (on_modified hd self ev).2 = current_game_name self).
Proof.
  intros Hset self1 after.
  assert (after = process_reload (finder inp) self1) as Hafter.
  { subst after self1. unfold before_update, handle_events.
    pose proof (handle_events_reload_queued (finder inp) (events inp)
                  self true) as Hq.
    destruct (foldl _ _ _) as [s1 running]. cbn [fst] in *.
    by rewrite Hq, Hset. }
  assert (reload_queued after = false) as Hclear.
  { apply before_update_reload_queued. }
  assert (current_game_name (tick self inp).1 = current_game_name after
          /\ reload_queued (tick self inp).1 = reload_queued after)
    as [Hname Hqueued].
  { subst after. unfold tick.
    destruct (before_update self inp) as [s1 running]. cbn [fst].
    by destruct (update_and_draw_spec s1 (clock_tick inp # 1000))
      as (_ & _ & -> & ->). }
  split; [done |]. split; [by rewrite Hqueued |].
  split; [|split].
  - intros name Hne Hsel. rewrite Hname, Hafter. unfold process_reload.
    rewrite Hsel. destruct name as [|c name]; [done |].
    split; [done |]. cbn [current_game_name set_reload_queued].
    apply load_game_current_game_name.
  - intros Hnone. rewrite Hafter. unfold process_reload.
    by destruct (current_game_name self1) as [[|c name]|].
  - intros hd ev. unfold on_modified.
    destruct (endswith _ _); [|done]. by destruct (Qgtb _ _).
Qed.

Lemma reload_targets_selected_plugin_witness :
  let finder := @pendulum_finder still_engine in
  let self :=
    trigger_reload (load_game finder "pendulum" (new_host no_key_agent)) in
  let inp := mkTickInput 16 [] finder in
  (before_update self inp).1
  = set_reload_queued false (load_game finder "pendulum" self) /\
  current_game_name (@tick still_engine self inp).1 = Some "pendulum".
Proof.
  cbv zeta.
  pose proof (@reload_targets_selected_plugin still_engine
                (trigger_reload
                   (load_game (@pendulum_finder still_engine) "pendulum"
                      (new_host no_key_agent)))
                (mkTickInput 16 [] (@pendulum_finder still_engine))
                eq_refl) as T.
  cbv zeta in T. destruct T as (_ & _ & Hsel & _).
  apply (Hsel "pendulum"); [discriminate | vm_compute; reflexivity].
Defined.

(* ================================================================== *)
(** * Further properties *)

(** ** Parsing the collaborator's response *)

Section Parsing.

Implicit Types (s t sep : string) (c a : ascii).







End Parsing.

(** X1: a response without any fence marker is returned as it is,
    surrounding whitespace included. *)
Theorem suggest_fix_unfenced_verbatim (self : AIAgent) generate_content
    current_code error_log context text :
  model self = Some generate_content ->
  generate_content (prompt current_code error_log context) = Ok text ->
  contains "```" text = false ->
  suggest_fix self current_code error_log context = text.
Proof.
  intros Hm Hg Hfree. unfold suggest_fix. rewrite Hm, Hg.
  cbn [mbind result_bind Py.bind].
  assert (contains "```python" text = false) as ->
    by exact (contains_weaken "```" "python" _ Hfree).
  by rewrite Hfree.
Qed.

Lemma suggest_fix_unfenced_verbatim_witness :
  suggest_fix {| model := Some (fun _ => Ok "  print(1)  ") |} "" "" ""
  = "  print(1)  ".
Proof.
  apply (suggest_fix_unfenced_verbatim _ (fun _ => Ok "  print(1)  "));
    reflexivity.
Defined.

(** X2: a response that opens a python fence and never closes it yields
    everything after the opening marker, trimmed. *)
Theorem suggest_fix_unterminated_fence (self : AIAgent) generate_content
    current_code error_log context rest :
  model self = Some generate_content ->
  generate_content (prompt current_code error_log context)
  = Ok ("```python" +:+ rest) ->
  contains "```" rest = false ->
  suggest_fix self current_code error_log context = strip rest.
Proof.
  intros Hm Hg Hfree. unfold suggest_fix. rewrite Hm, Hg.
  cbn [mbind result_bind Py.bind].
  assert (contains "```python" ("```python" +:+ rest) = true) as ->.
  { rewrite app_cons, contains_cons, <- app_cons. by rewrite prefix_append. }
  rewrite split_leading.
  assert (contains "```python" rest = false) as Hpy
    by exact (contains_weaken "```" "python" _ Hfree).
  rewrite (split_absent _ _ rest Hpy).
  cbn [item lookup list_lookup mbind result_bind Py.bind].
  rewrite (split_absent _ _ rest) by done.
  done.
Qed.

Lemma suggest_fix_unterminated_fence_witness :
  suggest_fix
    {| model := Some (fun _ => Ok ("```python" +:+ nl +:+ "x = 1" +:+ nl)) |}
    "" "" ""
  = "x = 1".
Proof.
  apply (suggest_fix_unterminated_fence _
           (fun _ => Ok ("```python" +:+ nl +:+ "x = 1" +:+ nl)) "" "" ""
           (nl +:+ "x = 1" +:+ nl));
    reflexivity.
Defined.



Section Prose.

Implicit Types (s t sep pre post S : string) (c a : ascii).

Lemma prefix_other_head a sep s :
  occurs a s = false -> String.prefix (String a sep) s = false.
Proof.
  destruct s as [|b s]; [done |]. cbn [occurs]. rewrite prefix_cons.
  destruct (Ascii.eqb_spec b a) as [->|Hne]; [done |]. intros _.
  destruct (ascii_dec a b); [congruence | done].
Qed.

Lemma occurs_tail a b s : occurs a (String b s) = false -> occurs a s = false.
Proof. cbn [occurs]. by destruct (Ascii.eqb b a). Qed.

(** A text free of the separator's first character holds no separator. *)
Lemma contains_clean a sep s :
  occurs a s = false -> contains (String a sep) s = false.
Proof.
  induction s as [|b s IH]; [done |]. intros Hs.
  rewrite contains_cons, (prefix_other_head _ _ _ Hs).
  apply IH. by eapply occurs_tail.
Qed.

Lemma prefix_after_clean a sep pre t :
  pre <> "" -> occurs a pre = false ->
  String.prefix (String a sep) (pre +:+ t) = false.
Proof.
  destruct pre as [|b pre]; [done |]. intros _. cbn [occurs].
  rewrite app_cons, prefix_cons.
  destruct (Ascii.eqb_spec b a) as [->|Hne]; [done |]. intros _.
  destruct (ascii_dec a b); [congruence | done].
Qed.

Lemma contains_after_clean a sep pre t :
  occurs a pre = false ->
  contains (String a sep) (pre +:+ t) = contains (String a sep) t.
Proof.
  induction pre as [|b pre IH]; [done |]. intros Hpre.
  rewrite app_cons, contains_cons, <- app_cons.
  rewrite prefix_after_clean by done.
  apply IH. by eapply occurs_tail.
Qed.

Lemma split_after_clean a sep pre t field fields :
  occurs a pre = false ->
  split (String a sep) t = field :: fields ->
  split (String a sep) (pre +:+ t) = (pre +:+ field) :: fields.
Proof.
  intros Hpre Ht. unfold split in *.
  induction pre as [|b pre IH]; [done |].
  rewrite app_cons. cbn [split_from]. rewrite <- app_cons.
  rewrite prefix_after_clean by done.
  rewrite IH by (by eapply occurs_tail). done.
Qed.

End Prose.

(** X4: prose around the block is discarded. When the response is text
    without backticks, then [S] in a python fenced block, then a line
    break and more text without backticks, and [S] holds no fence marker,
    the result is [S] trimmed. *)
Theorem suggest_fix_drops_surrounding_prose (self : AIAgent)
    generate_content current_code error_log context pre S post :
  model self = Some generate_content ->
  generate_content (prompt current_code error_log context)
  = Ok (pre +:+ fenced "python" S +:+ nl +:+ post) ->
  occurs "`" pre = false ->
  occurs "`" post = false ->
  contains "```" S = false ->
  suggest_fix self current_code error_log context = strip S.
Proof.
  intros Hm Hg Hpre Hpost HS. unfold suggest_fix. rewrite Hm, Hg.
  cbn [mbind result_bind Py.bind].
  set (tail := "```" +:+ nl +:+ post).
  assert (fenced "python" S +:+ nl +:+ post
          = "```python" +:+ ((nl +:+ S) +:+ String "010" tail)) as ->.
  { rewrite fenced_python. subst tail. unfold nl.
    by rewrite !append_assoc. }
  assert (contains "```python" (String "010" tail) = false) as Htail.
  { subst tail. unfold nl. rewrite !app_cons, app_nil.
    rewrite !contains_cons, !prefix_cons. cbn [orb].
    by apply contains_clean. }
  assert (contains "```python" (nl +:+ S) = false) as Hline
    by exact (contains_weaken "```" "python" _ (fence_free_line _ HS)).
  assert (split "```python" ((nl +:+ S) +:+ String "010" tail)
          = [(nl +:+ S) +:+ String "010" tail]) as Hfield.
  { by rewrite (split_before_foreign _ _ _ _ _ (String "010" tail) [])
      by (done || by apply split_absent). }
  rewrite contains_after_clean by done.
  assert (contains "```python"
            ("```python" +:+ ((nl +:+ S) +:+ String "010" tail)) = true) as ->.
  { rewrite app_cons, contains_cons, <- app_cons. by rewrite prefix_append. }
  rewrite (split_after_clean _ _ pre _ "" [(nl +:+ S) +:+ String "010" tail])
    by (done || by rewrite split_leading, Hfield).
  cbn [item lookup list_lookup mbind result_bind Py.bind].
  assert (exists fields,
            split "```" (String "010" tail) = nl :: fields) as [fields Hnl].
  { subst tail. unfold split. cbn [split_from]. rewrite prefix_cons.
    cbn [ascii_dec]. 
    pose proof (split_leading "`" "``" (nl +:+ post)) as Hlead.
    unfold split in Hlead. rewrite Hlead. by eexists. }
  rewrite (split_before_foreign _ _ _ _ _ nl fields)
    by (done || by apply fence_free_line).
  cbn [item lookup list_lookup mbind result_bind Py.bind].
  by rewrite append_assoc, strip_between_newlines.
Qed.

Lemma suggest_fix_drops_surrounding_prose_witness :
  suggest_fix
    {| model :=
         Some (fun _ =>
                 Ok ("Here is the fix:" +:+ nl +:+ fenced "python" "x = 1"
                     +:+ nl +:+ "Enjoy.")) |}
    "" "" ""
  = "x = 1".
Proof.
  apply (suggest_fix_drops_surrounding_prose _
           (fun _ =>
              Ok ("Here is the fix:" +:+ nl +:+ fenced "python" "x = 1"
                  +:+ nl +:+ "Enjoy."))
           "" "" "" ("Here is the fix:" +:+ nl) "x = 1" "Enjoy.");
    reflexivity.
Defined.

(** ** The watcher thread *)

Lemma deliver_cons (self : ReloadHandler) (host : GameHost) ev evs :
  deliver self host (ev :: evs)
  = deliver (on_modified self host ev).1 (on_modified self host ev).2 evs.
Proof.
  unfold deliver. cbn [foldl]. by destruct (on_modified self host ev).
Qed.

(** X5: the debounce drops nothing that is far enough apart. Source-file
    events each compared more than one second after the time stored for
    the previous one are all accepted, and the signal is raised. *)
Theorem spaced_events_all_accepted (self : ReloadHandler) (host : GameHost)
    (evs : list FileEvent) :
  spaced (last_reload self) evs ->
  accepted_count self host evs = List.length evs /\
  (evs <> [] -> reload_queued (deliver self host evs).2 = true).
Proof.
  revert self host. induction evs as [|ev evs IH]; intros self host; [done |].
  intros (Hpy & Htime & Hrest).
  assert (accepted self ev = true) as Hacc.
  { unfold accepted. rewrite Hpy. by apply Qgtb_true. }
  cbn [accepted_count List.length]. rewrite deliver_cons.
  rewrite (on_modified_accepted _ _ _ Hacc), Hacc. cbn [fst snd].
  destruct (IH {| last_reload := time_stored ev |}
              (trigger_reload
                 (print ("Detected change in " +:+ src_path ev
                         +:+ ", reloading...") host)) Hrest) as [-> Hsig].
  split; [done |]. intros _.
  destruct evs as [|ev' evs']; [done |]. by apply Hsig.
Qed.

Lemma spaced_events_all_accepted_witness :
  accepted_count new_handler (new_host no_key_agent)
    [mkFileEvent "games/pendulum/logic.py" 1000 1000;
     mkFileEvent "host.py" (10011 # 10) (10012 # 10);
     mkFileEvent "games/pendulum/logic.py" 1003 1003]
  = 3%nat.
Proof.
  apply (spaced_events_all_accepted new_handler (new_host no_key_agent)
           [mkFileEvent "games/pendulum/logic.py" 1000 1000;
            mkFileEvent "host.py" (10011 # 10) (10012 # 10);
            mkFileEvent "games/pendulum/logic.py" 1003 1003]).
  cbn. unfold Qlt. cbn. repeat split; lia.
Defined.

Lemma deliver_effect (self : ReloadHandler) (host : GameHost)
    (evs : list FileEvent) :
  let host' := (deliver self host evs).2 in
  reload_queued host'
  = reload_queued host || (0 <? accepted_count self host evs)%nat /\
  current_game_name host' = current_game_name host /\
  current_game_module host' = current_game_module host /\
  space host' = space host /\
  sys_modules host' = sys_modules host /\
  screen host' = screen host /\
  console_window host' = console_window host /\
  calls host' = calls host.
Proof.
  revert self host. induction evs as [|ev evs IH]; intros self host.
  { cbn. by rewrite orb_false_r. }
  cbv zeta. rewrite deliver_cons. cbn [accepted_count].
  destruct (accepted self ev) eqn:Hacc.
  - rewrite (on_modified_accepted _ _ _ Hacc). cbn [fst snd].
    destruct (IH {| last_reload := time_stored ev |}
                (trigger_reload
                   (print ("Detected change in " +:+ src_path ev
                           +:+ ", reloading...") host)))
      as (-> & -> & -> & -> & -> & -> & -> & ->).
    cbn. by rewrite orb_true_r.
  - rewrite (on_modified_rejected _ _ _ Hacc). cbn [fst snd].
    by destruct (IH self host) as (-> & -> & -> & -> & -> & -> & -> & ->).
Qed.

(** X6: the watcher thread writes nothing of the host but the reload
    signal and standard output. After a batch the signal is set exactly
    when it was set before or some event was accepted; the selected name,
    the module, the world, [sys.modules], the screen and the record of
    calls are as they were. *)
Theorem deliver_only_raises_signal (self : ReloadHandler) (host : GameHost)
    (evs : list FileEvent) :
  let host' := (deliver self host evs).2 in
  reload_queued host'
  = reload_queued host || (0 <? accepted_count self host evs)%nat /\
  current_game_name host' = current_game_name host /\
  current_game_module host' = current_game_module host /\
  space host' = space host /\
  sys_modules host' = sys_modules host /\
  screen host' = screen host /\
  console_window host' = console_window host /\
  calls host' = calls host.
Proof. apply deliver_effect. Qed.

(** ** More on loading *)

Lemma import_or_reload_result finder name (mods1 mods2 : gmap string Module) :
  mods1 !! name = mods2 !! name ->
  (import_or_reload finder name mods1).2
  = (import_or_reload finder name mods2).2.
Proof.
  intros Heq. unfold import_or_reload, reload, import_module. rewrite Heq.
  destruct (mods2 !! name) as [old|]; destruct (finder name) as [code|];
    try done.
  - by destruct (code old) as [m [e|]].
  - by destruct (code empty_module) as [m [e|]].
Qed.

(** X7: nothing of the previous plugin's world survives a load. The
    world and the current module after [load_game] are determined by the
    code on disk, the namespace [sys.modules] holds for that module and
    the screen: two hosts that agree on these end up with the same world,
    whatever their old worlds, selections and modules were. *)
Theorem load_discards_old_world (finder : Finder) (name : string)
    (self other : GameHost) :
  sys_modules self !! logic_module name
  = sys_modules other !! logic_module name ->
  screen self = screen other ->
  space (load_game finder name self) = space (load_game finder name other) /\
  current_game_module (load_game finder name self)
  = current_game_module (load_game finder name other) /\
  console_window (load_game finder name self)
  = console_window (load_game finder name other).
Proof.
  intros Hns Hscreen.
  pose proof (import_or_reload_result finder _ _ _ Hns) as Hres.
  destruct (import_or_reload finder (logic_module name) (sys_modules self))
    as [mods1 r] eqn:H1.
  destruct (import_or_reload finder (logic_module name) (sys_modules other))
    as [mods2 r2] eqn:H2.
  cbn [snd] in Hres. subst r2. destruct r as [m|e].
  - destruct (attr_setup m) as [setup|] eqn:Hm.
    + destruct (setup tt {| hs_globals := globals m; hs_space := fresh_space;
                            hs_screen := screen self |})
        as [st raised] eqn:Hsetup.
      rewrite (load_game_with_setup _ _ _ _ _ _ _ _ H1 Hm Hsetup).
      rewrite Hscreen in Hsetup.
      rewrite (load_game_with_setup _ _ _ _ _ _ _ _ H2 Hm Hsetup).
      by destruct raised.
    + by rewrite (load_game_without_setup _ _ _ _ _ H1 Hm),
        (load_game_without_setup _ _ _ _ _ H2 Hm).
  - by rewrite (load_game_import_failed _ _ _ _ _ H1),
      (load_game_import_failed _ _ _ _ _ H2).
Qed.

Lemma load_discards_old_world_witness :
  let crowded :=
    set_space (add fresh_space
                 [OConstraint (PinJoint StaticBody StaticBody (0, 0)%Q (0, 0)%Q)])
      (set_current_game_name (Some "other") (new_host no_key_agent)) in
  space (load_game (@pendulum_finder still_engine) "pendulum" crowded)
  = space (load_game (@pendulum_finder still_engine) "pendulum"
             (new_host no_key_agent)).
Proof.
  apply (load_discards_old_world (@pendulum_finder still_engine) "pendulum");
    reflexivity.
Defined.

(** X8: a load always reports its outcome, and the report agrees with
    the state. It prints three lines, the last of which is also what the
    console shows: either the success message, and then the entry module
    of the requested game is the current one, or the error message with
    the traceback, and then no module is current. *)
Theorem load_reports_outcome (finder : Finder) (name : string)
    (self : GameHost) :
  let self' := load_game finder name self in
  stdout self'
  = stdout self ++ ["Loading game: " +:+ name; "Loading " +:+ name +:+ "...";
                    console_window self'] /\
  ((console_window self' = "Loaded " +:+ name +:+ " successfully."
    /\ current_game_module self' = Some (logic_module name))
   \/ (exists e,
         console_window self'
         = "Error loading " +:+ name +:+ ":" +:+ nl +:+ format_exc e
         /\ current_game_module self' = None)) /\
  (console_window self' = "Loaded " +:+ name +:+ " successfully."
   <-> current_game_module self' <> None).
Proof.
  cbv zeta.
  assert (forall e,
            "Error loading " +:+ name +:+ ":" +:+ nl +:+ format_exc e
            <> "Loaded " +:+ name +:+ " successfully.") as Hne.
  { intros e. by rewrite !app_cons. }
  destruct (load_game_cases finder name self)
    as [(mods & e & ->) | [(mods & ->) | (mods & m & st & [e|] & ->)]];
    cbn; rewrite <- ?app_assoc; cbn.
  - split; [done |]. split; [right; by exists e |].
    split; [intros Heq; by apply Hne in Heq | done].
  - split; [done |]. split; [by left |]. done.
  - split; [done |]. split; [right; by exists e |].
    split; [intros Heq; by apply Hne in Heq | done].
  - split; [done |]. split; [by left |]. done.
Qed.

(** X9: during a load the host calls [setup] exactly once when the
    import succeeded and the module has the hook, and otherwise not at
    all; it calls nothing else. *)
Theorem load_calls_setup_once (finder : Finder) (name : string)
    (self : GameHost) :
  calls_during self (load_game finder name self)
  = match import_or_reload finder (logic_module name) (sys_modules self) with
    | (_, Ok m) =>
        match attr_setup m with
        | Some _ => [CallSetup (logic_module name)]
        | None => []
        end
    | (_, Raise _) => []
    end.
Proof.
  apply calls_during_app.
  destruct (import_or_reload finder (logic_module name) (sys_modules self))
    as [mods [m|e]] eqn:Himp.
  - destruct (attr_setup m) as [setup|] eqn:Hm.
    + destruct (setup tt {| hs_globals := globals m; hs_space := fresh_space;
                            hs_screen := screen self |})
        as [st raised] eqn:Hsetup.
      rewrite (load_game_with_setup _ _ _ _ _ _ _ _ Himp Hm Hsetup).
      by destruct raised.
    + rewrite (load_game_without_setup _ _ _ _ _ Himp Hm). cbn.
      by rewrite app_nil_r.
  - rewrite (load_game_import_failed _ _ _ _ _ Himp). cbn.
    by rewrite app_nil_r.
Qed.

(** X10: a hot reload runs the new source in the old module object. When
    a load succeeds, the current module is what the module body produces
    from the namespace already in [sys.modules] (the empty one on first
    import), up to the globals [setup] wrote: hooks and globals that the
    new source does not rebind survive the reload. *)
Theorem reload_runs_in_old_namespace (finder : Finder) (name : string)
    (self : GameHost) (code : ModuleCode) :
  finder (logic_module name) = Some code ->
  let namespace :=
    default empty_module (sys_modules self !! logic_module name) in
  let self' := load_game finder name self in
  current_game_module self' <> None ->
  exists g,
    current_module self'
    = Some (logic_module name, set_globals g (code namespace).1).
Proof.
  intros Hcode namespace self' Hloaded. subst self'.
  assert (forall mods r,
            import_or_reload finder (logic_module name) (sys_modules self)
            = (mods, r) ->
            match r with
            | Ok m => m = (code namespace).1
            | Raise _ => True
            end) as Hns.
  { intros mods r. unfold import_or_reload, reload, import_module.
    subst namespace. rewrite Hcode.
    destruct (sys_modules self !! logic_module name) as [old|];
      cbn [default from_option id].
    - destruct (code old) as [m [e|]]; intros [= <- <-]; done.
    - destruct (code empty_module) as [m [e|]]; intros [= <- <-]; done. }
  destruct (import_or_reload finder (logic_module name) (sys_modules self))
    as [mods [m|e]] eqn:Himp.
  - pose proof (Hns _ _ eq_refl) as Hm'. cbn in Hm'.
    pose proof (import_or_reload_ok _ _ _ _ _ Himp) as Hlookup.
    destruct (attr_setup m) as [setup|] eqn:Hm.
    + destruct (setup tt {| hs_globals := globals m; hs_space := fresh_space;
                            hs_screen := screen self |})
        as [st raised] eqn:Hsetup.
      rewrite (load_game_with_setup _ _ _ _ _ _ _ _ Himp Hm Hsetup) in *.
      destruct raised as [e|]; [done |].
      exists (hs_globals st). rewrite <- Hm'.
      unfold current_module, commit. cbn. by rewrite lookup_insert_eq.
    + rewrite (load_game_without_setup _ _ _ _ _ Himp Hm) in *.
      exists (globals m). rewrite <- Hm'.
      unfold current_module. cbn. rewrite Hlookup. by destruct m.
  - by rewrite (load_game_import_failed _ _ _ _ _ Himp) in Hloaded.
Qed.

Lemma reload_runs_in_old_namespace_witness :
  let old_source := defining None (Some raising_update) (Some idle_draw) in
  let new_source := defining None None (Some idle_draw) in
  let self :=
    load_game (stub_finder "demo" new_source) "demo"
      (load_game (stub_finder "demo" old_source) "demo"
         (new_host no_key_agent)) in
  exists g m,
    current_module self = Some ("games.demo.logic", set_globals g m)
    /\ attr_update m = Some raising_update.
Proof.
  cbv zeta.
  pose proof (reload_runs_in_old_namespace
                (stub_finder "demo" (defining None None (Some idle_draw)))
                "demo"
                (load_game
                   (stub_finder "demo"
                      (defining None (Some raising_update) (Some idle_draw)))
                   "demo" (new_host no_key_agent))
                (defining None None (Some idle_draw))) as T.
  cbv zeta in T.
  assert (current_game_module
            (load_game
               (stub_finder "demo" (defining None None (Some idle_draw)))
               "demo"
               (load_game
                  (stub_finder "demo"
                     (defining None (Some raising_update) (Some idle_draw)))
                  "demo" (new_host no_key_agent))) <> None) as Hloaded
    by (vm_compute; discriminate).
  destruct (T ltac:(vm_compute; reflexivity) Hloaded) as [g Hcur].
  eexists g, _. split; [exact Hcur |]. vm_compute. reflexivity.
Defined.

(** X11: the selection sticks to a game whose load failed. After any
    load of [name], successful or not, selecting [name] again in the list
    changes nothing (it does not retry), whereas processing a reload
    loads [name] once more with the code then on disk. *)
Theorem failed_game_stays_selected (finder retry : Finder) (name : string)
    (self : GameHost) (running : bool) :
  name <> "" ->
  let self' := load_game finder name self in
  handle_event retry (self', running)
    (UI_SELECTION_LIST_NEW_SELECTION true name) = (self', running) /\
  process_reload retry self'
  = set_reload_queued false (load_game retry name self').
Proof.
  intros Hname self'.
  pose proof (load_game_current_game_name finder name self) as Hsel.
  fold self' in Hsel. split.
  - cbn [handle_event]. rewrite Hsel. by rewrite decide_True.
  - unfold process_reload. rewrite Hsel. by destruct name.
Qed.

Lemma failed_game_stays_selected_witness :
  let self' := load_game (fun _ => None) "pendulum" (new_host no_key_agent) in
  current_game_module self' = None /\
  handle_event (@pendulum_finder still_engine) (self', true)
    (UI_SELECTION_LIST_NEW_SELECTION true "pendulum") = (self', true).
Proof.
  cbv zeta. split; [vm_compute; reflexivity |].
  apply (failed_game_stays_selected (fun _ => None)
           (@pendulum_finder still_engine) "pendulum"
           (new_host no_key_agent) true).
  discriminate.
Defined.

(** ** More on the main loop *)

Section MoreLoop.

Context `{Engine}.

Implicit Types (self : GameHost) (inp : TickInput).

Lemma handle_events_running finder (evs : list UIEvent) :
  forall self running,
    (foldl (handle_event finder) (self, running) evs).2
    = running && negb (existsb is_quit evs).
Proof.
  induction evs as [|ev evs IH]; intros self running; cbn [foldl existsb].
  { by rewrite andb_true_r. }
  assert ((handle_event finder (self, running) ev).2
          = running && negb (is_quit ev)) as Hstep.
  { destruct ev as [|[] selected|[]|]; cbn;
      rewrite ?andb_true_r, ?andb_false_r; try done.
    by destruct (decide _). }
  destruct (handle_event finder (self, running) ev) as [self1 running1].
  cbn [snd] in Hstep. rewrite IH, Hstep, negb_orb. by rewrite andb_assoc.
Qed.

(** X12: the loop ends exactly when a QUIT event was polled. The flag
    [running] at the end of an iteration is false if and only if QUIT
    was among its events, whatever came before or after it in the batch;
    the iteration that polls QUIT still runs to its end, and no later
    frame is processed. *)
Theorem quit_ends_the_loop (handler : ReloadHandler) (self : GameHost)
    (f : Frame) (rest : list Frame) :
  let delivered := deliver handler self (fs_events f) in
  let ticked := tick delivered.2 (input f) in
  ticked.2 = negb (existsb is_quit (events (input f))) /\
  run_loop handler self (f :: rest)
  = if existsb is_quit (events (input f))
    then (delivered.1, ticked.1)
    else run_loop delivered.1 ticked.1 rest.
Proof.
  cbv zeta.
  assert ((tick (deliver handler self (fs_events f)).2 (input f)).2
          = negb (existsb is_quit (events (input f)))) as Hrun.
  { unfold tick, before_update, handle_events.
    pose proof (handle_events_running (finder (input f)) (events (input f))
                  (deliver handler self (fs_events f)).2 true) as Hr.
    destruct (foldl _ _ _) as [s1 r1]. cbn [fst snd] in *. by rewrite Hr. }
  split; [done |]. cbn [run_loop].
  destruct (deliver handler self (fs_events f)) as [hd' self'].
  cbn [fst snd] in *.
  destruct (tick self' (input f)) as [self'' running]. cbn [fst snd] in *.
  rewrite Hrun. by destruct (existsb is_quit (events (input f))).
Qed.

Lemma filter_step_setups (l : list Call) :
  Forall (fun c => is_setup c = true) l -> List.filter is_step l = [].
Proof.
  induction 1 as [|c l Hc _ IH]; [done |]. by destruct c; simpl.
Qed.

Lemma filter_step_hooks self :
  List.filter is_step (update_calls self) = []
  /\ List.filter is_step (draw_calls self) = [].
Proof.
  unfold update_calls, draw_calls.
  destruct (current_module self) as [[n m]|]; [|done].
  by destruct (attr_update m), (attr_draw m).
Qed.

(** X13: every iteration advances the physics exactly once, by the
    constant [1/60], whether or not a plugin is loaded and whatever the
    frame took; the measured frame time reaches the UI manager only, in
    the call that precedes the flip ending the iteration. *)
Theorem physics_stepped_once_per_tick (self : GameHost) (inp : TickInput) :
  List.filter is_step (calls_during self (tick self inp).1)
  = [CallStep (1 # 60)%Q] /\
  exists before,
    calls_during self (tick self inp).1
    = before ++ [CallUiUpdate (clock_tick inp # 1000)%Q; CallFlip] /\
    Forall (fun c => c <> CallFlip
                     /\ forall dt, c <> CallUiUpdate dt) before.
Proof.
  destruct (tick_calls self inp) as (l & Hl & ->).
  destruct (filter_step_hooks (before_update self inp).1) as [Hu Hd].
  split.
  - rewrite List.filter_app, (filter_step_setups _ Hl). cbn.
    by rewrite !List.filter_app, Hu, Hd.
  - exists (l ++ CallStep (1 # 60)
              :: update_calls (before_update self inp).1
              ++ draw_calls (before_update self inp).1).
    split; [by rewrite <- !app_assoc, <- app_comm_cons, <- app_assoc |].
    apply Forall_app. split.
    + eapply Forall_impl; [exact Hl |]. intros c Hc. by destruct c.
    + constructor; [done |]. apply Forall_app.
      unfold update_calls, draw_calls.
      destruct (current_module _) as [[n m]|]; [|done].
      destruct (attr_update m), (attr_draw m); by repeat constructor.
Qed.

Lemma call_draw_nothing self :
  draw_calls self = [] -> call_draw self = self.
Proof.
  unfold draw_calls, call_draw.
  destruct (current_module self) as [[n m]|]; [|done].
  by destruct (attr_draw m).
Qed.

(** X14: each frame is painted from scratch and the UI overlay comes
    last. The screen at the end of an iteration always ends with the
    overlay, and when no module with a [draw] hook is current it holds
    the background fill and the overlay only, whatever was on it before. *)
Theorem frame_is_repainted (self : GameHost) (inp : TickInput) :
  (exists painted, screen (tick self inp).1 = painted ++ [DrawUI]) /\
  (draw_calls (before_update self inp).1 = [] ->
   screen (tick self inp).1 = [Fill (RGB 30 30 30); DrawUI]).
Proof.
  unfold tick. destruct (before_update self inp) as [s1 running].
  cbn [fst]. unfold update_and_draw. cbv zeta. fold (stepped s1).
  split; [by eexists |].
  intros Hnone. destruct (call_update_spec (stepped s1)) as (_ & Hd & _).
  change (draw_calls (stepped s1)) with (draw_calls s1) in Hd.
  rewrite call_draw_nothing; [done |].
  change (draw_calls (set_screen ?scr ?h)) with (draw_calls h).
  by rewrite Hd.
Qed.

Lemma run_ai_fix_threads self :
  truthy (current_game_name self) = true ->
  ai_threads (run_ai_fix self) = S (ai_threads self).
Proof. intros Hsel. unfold run_ai_fix. by rewrite Hsel. Qed.

Lemma ai_presses_counted finder (evs : list UIEvent) :
  Forall (fun ev => is_selection ev = false) evs ->
  forall self running,
    truthy (current_game_name self) = true ->
    ai_threads (foldl (handle_event finder) (self, running) evs).1
    = (ai_threads self + List.length (List.filter is_ai_press evs))%nat.
Proof.
  induction 1 as [|ev evs Hev _ IH]; intros self running Hsel;
    cbn [foldl List.filter List.length]; [by rewrite Nat.add_0_r |].
  assert (exists self1 running1,
            handle_event finder (self, running) ev = (self1, running1)
            /\ current_game_name self1 = current_game_name self
            /\ ai_threads self1
               = (ai_threads self + if is_ai_press ev then 1 else 0)%nat)
    as (self1 & running1 & -> & Hname & Hth).
  { destruct ev as [|[] selected|[]|]; try done; cbn;
      try (eexists _, _; by rewrite Nat.add_0_r).
    eexists _, _. split; [done |].
    destruct (run_ai_fix_preserves self) as (_ & _ & _ & Hn & _).
    split; [done |]. rewrite run_ai_fix_threads by done. lia. }
  rewrite IH by (by rewrite Hname). rewrite Hth.
  destruct (is_ai_press ev); cbn [List.length]; lia.
Qed.

(** X15: requests to the AI are not serialised. With a game selected,
    every press of the AI button in a batch of events (without list
    selections) starts one more thread, however many are already
    running; with no game selected a press changes nothing at all. *)
Theorem ai_requests_are_not_serialised (finder : Finder) (self : GameHost)
    (evs : list UIEvent) :
  Forall (fun ev => is_selection ev = false) evs ->
  (truthy (current_game_name self) = true ->
   ai_threads (handle_events finder self evs).1
   = (ai_threads self + List.length (List.filter is_ai_press evs))%nat) /\
  (truthy (current_game_name self) = false ->
   handle_event finder (self, true) (UI_BUTTON_PRESSED true) = (self, true)).
Proof.
  intros Hevs. split.
  - intros Hsel. unfold handle_events. by apply ai_presses_counted.
  - intros Hnone. cbn [handle_event]. unfold run_ai_fix. by rewrite Hnone.
Qed.

End MoreLoop.

Lemma ai_requests_are_not_serialised_witness :
  let self :=
    load_game (@pendulum_finder still_engine) "pendulum"
      (new_host no_key_agent) in
  ai_threads
    (handle_events (@pendulum_finder still_engine) self
       [UI_BUTTON_PRESSED true; OtherEvent; UI_BUTTON_PRESSED true]).1
  = 2%nat.
Proof.
  cbv zeta.
  destruct (ai_requests_are_not_serialised (@pendulum_finder still_engine)
              (load_game (@pendulum_finder still_engine) "pendulum"
                 (new_host no_key_agent))
              [UI_BUTTON_PRESSED true; OtherEvent; UI_BUTTON_PRESSED true])
    as [Hcount _]; [by repeat constructor |].
  rewrite Hcount; [vm_compute; reflexivity | vm_compute; reflexivity].
Defined.

(** ** An invariant of the whole run *)

Section Invariant.

Context `{Engine}.

Implicit Types (self : GameHost) (inp : TickInput).

Lemma matches_transfer self self' :
  current_game_module self' = current_game_module self ->
  current_game_name self' = current_game_name self ->
  (forall n, is_Some (sys_modules self !! n) ->
             is_Some (sys_modules self' !! n)) ->
  module_matches_selection self -> module_matches_selection self'.
Proof.
  intros Hm Hn Hmods Hinv r Hr. rewrite Hm in Hr.
  destruct (Hinv r Hr) as (name & Hname & -> & Hsome).
  exists name. rewrite Hn. auto.
Qed.

Lemma load_game_matches finder name self :
  module_matches_selection (load_game finder name self).
Proof.
  intros r Hr. exists name.
  rewrite load_game_current_game_name. split; [done |].
  destruct (import_or_reload finder (logic_module name) (sys_modules self))
    as [mods [m|e]] eqn:Himp.
  - pose proof (import_or_reload_ok _ _ _ _ _ Himp) as Hlookup.
    destruct (attr_setup m) as [setup|] eqn:Hm.
    + destruct (setup tt {| hs_globals := globals m; hs_space := fresh_space;
                            hs_screen := screen self |})
        as [st raised] eqn:Hsetup.
      rewrite (load_game_with_setup _ _ _ _ _ _ _ _ Himp Hm Hsetup) in *.
      destruct raised as [e|]; [done |]. cbn in Hr. injection Hr as <-.
      split; [done |]. unfold commit. cbn. rewrite lookup_insert_eq. by eexists.
    + rewrite (load_game_without_setup _ _ _ _ _ Himp Hm) in *.
      cbn in Hr. injection Hr as <-. split; [done |]. cbn.
      rewrite Hlookup. by eexists.
  - by rewrite (load_game_import_failed _ _ _ _ _ Himp) in Hr.
Qed.

Lemma handle_event_matches finder self running ev :
  module_matches_selection self ->
  module_matches_selection (handle_event finder (self, running) ev).1.
Proof.
  intros Hinv. destruct ev as [|[] selected|[]|]; cbn; try done.
  - destruct (decide _); cbn; [done | apply load_game_matches].
  - destruct (run_ai_fix_preserves self) as (_ & _ & Hm & Hn & Hmods & _).
    eapply matches_transfer; [done | done | | done].
    intros n. by rewrite Hmods.
Qed.

Lemma handle_events_matches finder (evs : list UIEvent) :
  forall self running,
    module_matches_selection self ->
    module_matches_selection (foldl (handle_event finder) (self, running) evs).1.
Proof.
  induction evs as [|ev evs IH]; intros self running Hinv; cbn [foldl];
    [done |].
  pose proof (handle_event_matches finder self running ev Hinv) as Hstep.
  destruct (handle_event finder (self, running) ev) as [self1 running1].
  by apply IH.
Qed.

Lemma set_reload_queued_matches (b : bool) self :
  module_matches_selection self ->
  module_matches_selection (set_reload_queued b self).
Proof. intros Hinv r Hr. exact (Hinv r Hr). Qed.

Lemma process_reload_matches finder self :
  module_matches_selection self ->
  module_matches_selection (process_reload finder self).
Proof.
  intros Hinv. unfold process_reload. apply set_reload_queued_matches.
  destruct (current_game_name self) as [[|c name]|]; [done | | done].
  apply load_game_matches.
Qed.

Lemma commit_matches self name m st :
  module_matches_selection self ->
  module_matches_selection (commit name m st self).
Proof.
  intros Hinv. eapply matches_transfer; [| | | exact Hinv]; try done.
  intros n Hn. unfold commit. cbn.
  destruct (decide (name = n)) as [->|Hne].
  - rewrite lookup_insert_eq. by eexists.
  - by rewrite lookup_insert_ne.
Qed.

Lemma update_and_draw_matches self time_delta :
  module_matches_selection self ->
  module_matches_selection (update_and_draw self time_delta).
Proof.
  intros Hinv. unfold update_and_draw. cbv zeta.
  assert (module_matches_selection (stepped self)) as H1.
  { eapply matches_transfer; [| | | exact Hinv]; done. }
  fold (stepped self).
  assert (module_matches_selection (call_update (stepped self))) as H2.
  { unfold call_update. destruct (current_module _) as [[n m]|]; [|done].
    destruct (attr_update m) as [update|]; [|done].
    destruct (update _ _) as [st raised]. apply commit_matches.
    eapply matches_transfer; [| | | exact H1]; done. }
  set (filled := set_screen _ (call_update (stepped self))).
  assert (module_matches_selection filled) as H3.
  { eapply matches_transfer; [| | | exact H2]; done. }
  assert (module_matches_selection (call_draw filled)) as H4.
  { unfold call_draw. destruct (current_module _) as [[n m]|]; [|done].
    destruct (attr_draw m) as [draw|]; [|done].
    destruct (draw _ _) as [st raised]. apply commit_matches.
    eapply matches_transfer; [| | | exact H3]; done. }
  eapply matches_transfer; [| | | exact H4]; done.
Qed.

Lemma tick_matches self inp :
  module_matches_selection self ->
  module_matches_selection (tick self inp).1.
Proof.
  intros Hinv. unfold tick, before_update, handle_events.
  pose proof (handle_events_matches (finder inp) (events inp) self true Hinv)
    as H1.
  destruct (foldl _ _ _) as [s1 running]. cbn [fst] in *.
  apply update_and_draw_matches.
  destruct (reload_queued s1); [by apply process_reload_matches | done].
Qed.

Lemma deliver_matches (handler : ReloadHandler) self evs :
  module_matches_selection self ->
  module_matches_selection (deliver handler self evs).2.
Proof.
  intros Hinv.
  destruct (deliver_effect handler self evs)
    as (_ & Hn & Hm & _ & Hmods & _).
  eapply matches_transfer; [done | done | | done].
  intros n. by rewrite Hmods.
Qed.

Lemma run_loop_matches (frames : list Frame) :
  forall (handler : ReloadHandler) self,
    module_matches_selection self ->
    module_matches_selection (run_loop handler self frames).2.
Proof.
  induction frames as [|f frames IH]; intros handler self Hinv; [done |].
  cbn [run_loop].
  pose proof (deliver_matches handler self (fs_events f) Hinv) as H1.
  destruct (deliver handler self (fs_events f)) as [hd' self'].
  cbn [snd] in H1.
  pose proof (tick_matches self' (input f) H1) as H2.
  destruct (tick self' (input f)) as [self'' running]. cbn [fst] in H2.
  destruct running; [by apply IH | done].
Qed.

End Invariant.

(** X16: the module the host calls hooks on is always the entry module
    of the game it shows as selected. From start-up on, through any
    sequence of watcher events, UI events, reloads and hook calls,
    whenever a module is current its name is the entry module of the
    selected game and [sys.modules] holds it: no iteration ever runs the
    hooks of a previously selected game. *)
Theorem module_always_matches_selection `{Engine} (agent : AIAgent)
    (finder : Finder) (fs : Fs.Node) (self : GameHost)
    (frames : list Frame) :
  init agent finder fs = Ok self ->
  module_matches_selection self /\
  module_matches_selection (run self frames).2.
Proof.
  intros Hinit.
  assert (module_matches_selection self) as Hinv.
  { unfold init in Hinit. destruct (discover_games fs) as [games|e]; [|done].
    cbn [mbind result_bind Py.bind] in Hinit.
    destruct games as [|first games]; injection Hinit as <-.
    - by intros r Hr.
    - apply load_game_matches. }
  split; [done |]. by apply run_loop_matches.
Qed.

Lemma module_always_matches_selection_witness :
  let self :=
    load_game (@pendulum_finder still_engine) "pendulum"
      (populate_game_list
         (set_available_games ["pendulum"] (new_host no_key_agent))) in
  init no_key_agent (@pendulum_finder still_engine) (demo_fs "") = Ok self /\
  module_matches_selection
    (@run still_engine self
       [mkFrame [mkFileEvent "games/pendulum/logic.py" 1000 1000]
          (mkTickInput 16 [UI_SELECTION_LIST_NEW_SELECTION true "scratch"]
             (@pendulum_finder still_engine))]).2.
Proof.
  cbv zeta.
  assert (init no_key_agent (@pendulum_finder still_engine) (demo_fs "")
          = Ok (load_game (@pendulum_finder still_engine) "pendulum"
                  (populate_game_list
                     (set_available_games ["pendulum"]
                        (new_host no_key_agent))))) as Hinit
    by reflexivity.
  split; [exact Hinit |].
  exact (proj2 (@module_always_matches_selection still_engine no_key_agent
                  (@pendulum_finder still_engine) (demo_fs "") _ _ Hinit)).
Defined.

(** ** The pendulum plugin *)

(** X17: whatever world [setup] is given, it registers one body, one
    segment and one pin joint after what is there, the segment and the
    joint referring to the body just registered; it leaves gravity and the
    screen alone, rebinds [objects] to that body and the length, and
    raises nothing. *)
Theorem pendulum_setup_registers (st : HookState) :
  let n := List.length (bodies (hs_space st)) in
  let body :=
    {| mass := 1; moment := moment_for_segment 1 (0, 0)%Q (0, 100)%Q 5;
       position := (400, 300)%Q; angle := (314 # 100)%Q |} in
  let st' := (Pendulum.setup tt st).1 in
  (Pendulum.setup tt st).2 = None /\
  bodies (hs_space st') = bodies (hs_space st) ++ [body] /\
  bodies (hs_space st') !! n = Some body /\
  (exists segment,
     shapes (hs_space st') = shapes (hs_space st) ++ [segment]
     /\ seg_body segment = BodyAt n) /\
  constraints (hs_space st')
  = constraints (hs_space st)
    ++ [PinJoint StaticBody (BodyAt n) (400, 300)%Q (0, 0)%Q] /\
  gravity (hs_space st') = gravity (hs_space st) /\
  hs_screen st' = hs_screen st /\
  hs_globals st' !! "objects"
  = Some (VDict [("body", VBody (BodyAt n)); ("length", VInt 100)]).
Proof.
  cbv zeta. unfold Pendulum.setup. cbn.
  repeat split; try done.
  - by rewrite list_lookup_middle.
  - by eexists.
  - by rewrite lookup_insert_eq.
Qed.

(** X18: [draw] is read-only with respect to the simulation: on every
    state it leaves the world and the module globals as they are and
    only adds to the screen, either nothing or the rod, the pivot and the
    bob; when it raises it has painted nothing. *)
Theorem pendulum_draw_is_read_only `{Engine} (st : HookState) :
  let st' := (Pendulum.draw tt st).1 in
  hs_space st' = hs_space st /\
  hs_globals st' = hs_globals st /\
  exists painted,
    hs_screen st' = hs_screen st ++ painted /\
    (painted = []
     \/ (List.length painted = 3%nat /\ (Pendulum.draw tt st).2 = None)).
Proof.
  cbv zeta. unfold Pendulum.draw.
  repeat case_match; cbn; repeat split; try done;
    try (exists []; split; [by rewrite app_nil_r | by left]).
  eexists. split; [done |]. by right.
Qed.

(** X19: after [setup] has run, on whatever world, [draw] finds its body
    and paints exactly three primitives without raising; on the globals
    of a freshly imported module, before any [setup], it paints nothing
    and does not raise either. *)
Theorem pendulum_draw_after_setup `{Engine} (st : HookState) :
  let ready := (Pendulum.setup tt st).1 in
  (Pendulum.draw tt ready).2 = None /\
  List.length (hs_screen (Pendulum.draw tt ready).1)
  = (List.length (hs_screen st) + 3)%nat /\
  (hs_globals st !! "objects" = Some (VDict []) ->
   Pendulum.draw tt st = (st, None)).
Proof.
  cbv zeta. split; [|split].
  - unfold Pendulum.draw, Pendulum.setup. cbn.
    rewrite lookup_insert_eq. cbn. by rewrite list_lookup_middle.
  - unfold Pendulum.draw, Pendulum.setup. cbn.
    rewrite lookup_insert_eq. cbn. rewrite list_lookup_middle by done.
    cbn. rewrite length_app. cbn. lia.
  - intros Hobj. unfold Pendulum.draw. by rewrite Hobj.
Qed.

Lemma pendulum_draw_after_setup_witness :
  @Pendulum.draw still_engine tt
    {| hs_globals := <["objects" := VDict []]> ∅; hs_space := fresh_space;
       hs_screen := [] |}
  = ({| hs_globals := <["objects" := VDict []]> ∅; hs_space := fresh_space;
        hs_screen := [] |}, None).
Proof.
  apply (@pendulum_draw_after_setup still_engine
           {| hs_globals := <["objects" := VDict []]> ∅;
              hs_space := fresh_space; hs_screen := [] |}).
  vm_compute. reflexivity.
Defined.

(** X20: loading the pendulum gives the same world from every host
    state, on first import and on every reload: one body, one segment,
    one pin joint under gravity (0, 900). Reloading the unchanged plugin
    therefore reproduces the world of the first load. *)
Theorem pendulum_load_is_deterministic `{Engine} (self : GameHost) :
  let loaded := load_game pendulum_finder "pendulum" self in
  space loaded
  = {| gravity := (0, 900)%Q;
       bodies :=
         [{| mass := 1; moment := moment_for_segment 1 (0, 0)%Q (0, 100)%Q 5;
             position := (400, 300)%Q; angle := (314 # 100)%Q |}];
       shapes :=
         [{| seg_body := BodyAt 0; seg_a := (0, 0)%Q; seg_b := (0, 100)%Q;
             seg_radius := 5; color := Some (ColorName "white");
             elasticity := (1 # 2)%Q |}];
       constraints :=
         [PinJoint StaticBody (BodyAt 0) (400, 300)%Q (0, 0)%Q] |} /\
  current_game_module loaded = Some "games.pendulum.logic" /\
  space (load_game pendulum_finder "pendulum" loaded) = space loaded.
Proof.
  assert (forall host,
            exists mods m,
              import_or_reload pendulum_finder (logic_module "pendulum")
                (sys_modules host) = (mods, Ok m)
              /\ attr_setup m = Some Pendulum.setup) as Himp.
  { intros host. unfold import_or_reload, reload, import_module.
    change (pendulum_finder (logic_module "pendulum"))
      with (Some Pendulum.code).
    destruct (sys_modules host !! logic_module "pendulum");
      by eexists _, _. }
  assert (forall host,
            space (load_game pendulum_finder "pendulum" host)
            = hs_space (Pendulum.setup tt
                          {| hs_globals := ∅; hs_space := fresh_space;
                             hs_screen := [] |}).1
            /\ current_game_module (load_game pendulum_finder "pendulum" host)
               = Some "games.pendulum.logic") as Hload.
  { intros host. destruct (Himp host) as (mods & m & Hi & Hs).
    by rewrite (load_game_with_setup _ _ _ _ _ _ _ None Hi Hs eq_refl). }
  cbv zeta. destruct (Hload self) as [-> ->].
  by destruct (Hload (load_game pendulum_finder "pendulum" self)) as [-> _].
Qed.

(** ** Start-up *)

(** X21: a games root that exists but is a regular file is not treated
    as "no games": listing it raises, nothing catches that in the
    constructor, and the host does not start. *)
Theorem games_root_is_a_file (agent : AIAgent) (finder : Finder)
    (fs : Fs.Node) (content : string) :
  Fs.resolve fs [GAMES_DIR] = Some (Fs.File content) ->
  discover_games fs = Raise (mkExc "NotADirectoryError" "Not a directory") /\
  init agent finder fs = Raise (mkExc "NotADirectoryError" "Not a directory").
Proof.
  intros Hroot.
  assert (discover_games fs
          = Raise (mkExc "NotADirectoryError" "Not a directory")) as Hd.
  { unfold discover_games, Fs.exists_, Fs.listdir. by rewrite Hroot. }
  split; [done |]. unfold init. by rewrite Hd.
Qed.

Lemma games_root_is_a_file_witness :
  init no_key_agent (fun _ => None) (Fs.Dir [("games", Fs.File "")])
  = Raise (mkExc "NotADirectoryError" "Not a directory").
Proof.
  apply (games_root_is_a_file no_key_agent (fun _ => None)
           (Fs.Dir [("games", Fs.File "")]) "").
  reflexivity.
Defined.

Lemma load_game_keeps_lists finder name (self : GameHost) :
  available_games (load_game finder name self) = available_games self
  /\ game_list (load_game finder name self) = game_list self
  /\ ai_threads (load_game finder name self) = ai_threads self.
Proof.
  destruct (load_game_cases finder name self)
    as [(? & ? & ->) | [(? & ->) | (? & ? & ? & [?|] & ->)]]; done.
Qed.

(** X22: when discovery finds games, the host starts with the first one
    in listing order selected, whether or not it could be loaded; the
    list widget shows every discovered game, no reload is pending and no
    AI thread runs. *)
Theorem host_starts_on_first_game (agent : AIAgent) (finder : Finder)
    (fs : Fs.Node) (first : string) (others : list string) :
  discover_games fs = Ok (first :: others) ->
  exists self,
    init agent finder fs = Ok self /\
    current_game_name self = Some first /\
    available_games self = first :: others /\
    game_list self = first :: others /\
    reload_queued self = false /\
    ai_threads self = 0%nat /\
    (current_game_module self = None
     \/ current_game_module self = Some (logic_module first)).
Proof.
  intros Hd. unfold init. rewrite Hd. cbn [mbind result_bind Py.bind].
  eexists. split; [done |].
  rewrite load_game_current_game_name, load_game_reload_queued.
  destruct (load_game_keeps_lists finder first
              (populate_game_list
                 (set_available_games (first :: others) (new_host agent))))
    as (-> & -> & ->).
  repeat split; try done.
  destruct (load_game_cases finder first
              (populate_game_list
                 (set_available_games (first :: others) (new_host agent))))
    as [(? & ? & ->) | [(? & ->) | (? & ? & ? & [?|] & ->)]];
    by (left + right).
Qed.

Lemma host_starts_on_first_game_witness :
  exists self,
    init no_key_agent (fun _ => None) (demo_fs "") = Ok self /\
    current_game_name self = Some "pendulum" /\
    current_game_module self = None.
Proof.
  destruct (host_starts_on_first_game no_key_agent (fun _ => None)
              (demo_fs "") "pendulum" [])
    as (self & Hinit & Hname & _); [reflexivity |].
  exists self. split; [exact Hinit |]. split; [exact Hname |].
  assert (init no_key_agent (fun _ => None) (demo_fs "")
          = Ok (load_game (fun _ => None) "pendulum"
                  (populate_game_list
                     (set_available_games ["pendulum"]
                        (new_host no_key_agent))))) as Heq
    by reflexivity.
  rewrite Heq in Hinit. injection Hinit as <-. vm_compute. reflexivity.
Defined.

(** ** What a patch leaves alone *)

Section Frame.

Implicit Types (fs : Fs.Node) (es : list (string * Fs.Node)).

Lemma read_nil_dir es : Fs.read (Fs.Dir es) [] =
  Raise (mkExc "IsADirectoryError" "Is a directory").
Proof. reflexivity. Qed.

Lemma read_cons_dir es p q :
  Fs.read (Fs.Dir es) (p :: q)
  = match Fs.entry p es with
    | Some child => Fs.read child q
    | None => Raise (mkExc "FileNotFoundError" "No such file or directory")
    end.
Proof. unfold Fs.read. cbn [Fs.resolve]. by destruct (Fs.entry p es). Qed.

Lemma read_cons_file content p q :
  Fs.read (Fs.File content) (p :: q)
  = Raise (mkExc "FileNotFoundError" "No such file or directory").
Proof. reflexivity. Qed.

Lemma entry_set_entry_ne p p' node es :
  p' <> p -> Fs.entry p' (Fs.set_entry p node es) = Fs.entry p' es.
Proof.
  intros Hne. unfold Fs.entry, Fs.set_entry.
  induction es as [|[n x] es IH]; [done |].
  cbn [fmap list_fmap List.find fst].
  destruct (String.eqb_spec n p) as [->|Hnp]; cbn [fst].
  - destruct (String.eqb_spec p p') as [->|_]; [done |]. exact IH.
  - destruct (String.eqb n p'); [done | exact IH].
Qed.

Lemma entry_app_new p p' node es :
  Fs.entry p es = None ->
  Fs.entry p' (es ++ [(p, node)])
  = if String.eqb p p' then Some node else Fs.entry p' es.
Proof.
  unfold Fs.entry. induction es as [|[n x] es IH]; intros Hnone.
  - cbn. by destruct (String.eqb p p').
  - cbn [app List.find fst] in *.
    destruct (String.eqb_spec n p) as [->|Hnp]; [done |].
    destruct (String.eqb_spec n p') as [->|Hnp'].
    + destruct (String.eqb_spec p p') as [->|_]; done.
    + by apply IH.
Qed.

(** A successful write changes what can be read at the written path
    only. *)
Lemma write_frame path : forall fs fs' content q,
  Fs.write fs path content = Ok fs' ->
  q <> path ->
  Fs.read fs' q = Fs.read fs q.
Proof.
  induction path as [|p rest IH]; intros fs fs' content q Hw Hq.
  - cbn [Fs.write] in Hw. destruct fs as [old|es]; [|done].
    injection Hw as <-. by destruct q.
  - cbn [Fs.write] in Hw. destruct fs as [old|es]; [done |].
    destruct (Fs.entry p es) as [child|] eqn:Hentry.
    + destruct (Fs.write child rest content) as [child'|e] eqn:Hchild;
        [|done].
      cbn [mbind result_bind Py.bind] in Hw. injection Hw as <-.
      destruct q as [|p' q']; [done |]. rewrite !read_cons_dir.
      destruct (decide (p' = p)) as [->|Hne].
      * rewrite (entry_set_entry _ _ _ _ Hentry), Hentry.
        eapply IH; [exact Hchild | congruence].
      * by rewrite entry_set_entry_ne.
    + destruct rest as [|r rest]; [|done]. injection Hw as <-.
      destruct q as [|p' q']; [done |]. rewrite !read_cons_dir.
      rewrite (entry_app_new _ _ _ _ Hentry).
      destruct (String.eqb_spec p p') as [->|Hne]; [|done].
      rewrite Hentry. destruct q' as [|r q']; [congruence | done].
Qed.

End Frame.

(** X23: a patch touches one file. When the thread started by
    [run_ai_fix] finishes without raising, every path other than the
    entry point of the selected game reads exactly as before (same
    content, or same error). *)
Theorem patch_touches_only_entry_point (self : GameHost)
    (fs fs' : Fs.Node) (name : string) (q : list string) :
  current_game_name self = Some name ->
  _task self fs = Ok fs' ->
  q <> entry_point name ->
  Fs.read fs' q = Fs.read fs q.
Proof.
  intros Hname Htask Hq. unfold _task in Htask. rewrite Hname in Htask.
  fold (entry_point name) in Htask.
  destruct (Fs.read fs (entry_point name)) as [code|e]; [|done].
  cbn [mbind result_bind Py.bind] in Htask.
  destruct (contains "Error" _ && _).
  - by injection Htask as <-.
  - by eapply write_frame.
Qed.

Lemma patch_touches_only_entry_point_witness :
  let self :=
    set_current_game_name (Some "pendulum") (new_host (echo_agent "x = 2")) in
  exists fs',
    _task self (demo_fs "x = 1") = Ok fs' /\
    Fs.read fs' ["games"; "scratch"; "notes.txt"] = Ok "" /\
    Fs.read fs' (entry_point "pendulum") = Ok "x = 2".
Proof.
  cbv zeta. eexists. split; [vm_compute; reflexivity |]. split.
  - rewrite (patch_touches_only_entry_point
               (set_current_game_name (Some "pendulum")
                  (new_host (echo_agent "x = 2")))
               (demo_fs "x = 1") _ "pendulum"
               ["games"; "scratch"; "notes.txt"]);
      [reflexivity | reflexivity | vm_compute; reflexivity | discriminate].
  - reflexivity.
Defined.

Section Shape.

Implicit Types (fs : Fs.Node) (es : list (string * Fs.Node)).

Lemma set_entry_names p node es : (Fs.set_entry p node es).*1 = es.*1.
Proof.
  unfold Fs.set_entry. induction es as [|[n x] es IH]; [done |].
  cbn [fmap list_fmap fst]. rewrite <- IH.
  destruct (String.eqb_spec n p) as [->|_]; done.
Qed.

(** Overwriting a readable file keeps, at every path, the kind of what
    is there and the names a directory lists. *)
Lemma write_keeps_shape path : forall fs fs' old content q,
  Fs.read fs path = Ok old ->
  Fs.write fs path content = Ok fs' ->
  Fs.exists_ fs' q = Fs.exists_ fs q
  /\ Fs.isdir fs' q = Fs.isdir fs q
  /\ Fs.listdir fs' q = Fs.listdir fs q.
Proof.
  induction path as [|p rest IH]; intros fs fs' old content q Hr Hw.
  - cbn [Fs.write] in Hw. destruct fs as [o|es]; [|done].
    injection Hw as <-. by destruct q.
  - cbn [Fs.write] in Hw. destruct fs as [o|es]; [done |].
    rewrite read_cons_dir in Hr.
    destruct (Fs.entry p es) as [child|] eqn:Hentry; [|done].
    destruct (Fs.write child rest content) as [child'|e] eqn:Hchild; [|done].
    cbn [mbind result_bind Py.bind] in Hw. injection Hw as <-.
    destruct q as [|p' q'].
    + unfold Fs.exists_, Fs.isdir, Fs.listdir. cbn [Fs.resolve].
      by rewrite set_entry_names.
    + unfold Fs.exists_, Fs.isdir, Fs.listdir. cbn [Fs.resolve].
      destruct (decide (p' = p)) as [->|Hne].
      * rewrite (entry_set_entry _ _ _ _ Hentry), Hentry.
        apply (IH child child' old content q' Hr Hchild).
      * by rewrite entry_set_entry_ne.
Qed.

End Shape.

(** X24: a patch never changes which plugins there are. After the thread
    started by [run_ai_fix] has finished, discovery over the working
    directory returns the same list as before. *)
Theorem patch_keeps_discovery (self : GameHost) (fs fs' : Fs.Node)
    (name : string) :
  current_game_name self = Some name ->
  _task self fs = Ok fs' ->
  discover_games fs' = discover_games fs.
Proof.
  intros Hname Htask. unfold _task in Htask. rewrite Hname in Htask.
  fold (entry_point name) in Htask.
  destruct (Fs.read fs (entry_point name)) as [code|e] eqn:Hread; [|done].
  cbn [mbind result_bind Py.bind] in Htask.
  destruct (contains "Error" _ && _); [by injection Htask as <- |].
  pose proof (fun q => write_keeps_shape _ _ _ _ _ q Hread Htask) as Hshape.
  unfold discover_games.
  destruct (Hshape [GAMES_DIR]) as (-> & _ & ->).
  destruct (Fs.exists_ fs [GAMES_DIR]); [|done].
  destruct (Fs.listdir fs [GAMES_DIR]) as [items|e]; [|done].
  cbn [mbind result_bind Py.bind]. f_equal.
  apply List.filter_ext. intros item.
  destruct (Hshape [GAMES_DIR; item]) as (_ & -> & _).
  by destruct (Hshape [GAMES_DIR; item; "logic.py"]) as (-> & _).
Qed.

Lemma patch_keeps_discovery_witness :
  exists fs',
    _task (set_current_game_name (Some "pendulum")
             (new_host (echo_agent "x = 2")))
          (demo_fs "x = 1") = Ok fs' /\
    discover_games fs' = Ok ["pendulum"].
Proof.
  eexists. split; [vm_compute; reflexivity |].
  rewrite (patch_keeps_discovery
             (set_current_game_name (Some "pendulum")
                (new_host (echo_agent "x = 2")))
             (demo_fs "x = 1") _ "pendulum");
    [reflexivity | reflexivity | vm_compute; reflexivity].
Defined.

(** ** When the host loads, and how often *)

(** X25: no spurious reload. An iteration that polls no list selection
    and finds the reload signal clear loads nothing: up to the physics
    update the world, the module, the selection, [sys.modules] and the
    record of calls are those of the iteration's start, and the whole
    iteration records no [setup] call. *)
Theorem quiet_tick_loads_nothing `{Engine} (self : GameHost)
    (inp : TickInput) :
  Forall (fun ev => is_selection ev = false) (events inp) ->
  reload_queued self = false ->
  let before := (before_update self inp).1 in
  space before = space self /\
  current_game_module before = current_game_module self /\
  current_game_name before = current_game_name self /\
  sys_modules before = sys_modules self /\
  calls before = calls self /\
  List.filter is_setup (calls_during self (tick self inp).1) = [].
Proof.
  intros Hevs Hquiet.
  assert ((before_update self inp).1
          = (handle_events (finder inp) self (events inp)).1) as Hbefore.
  { unfold before_update, handle_events.
    pose proof (handle_events_reload_queued (finder inp) (events inp)
                  self true) as Hq.
    destruct (foldl _ _ _) as [s1 running]. cbn [fst] in *.
    by rewrite Hq, Hquiet. }
  destruct (handle_events_no_selection (finder inp) (events inp) Hevs self true)
    as (Hc & Hm & Hn & Hmods & Hsp).
  cbv zeta. rewrite Hbefore. unfold handle_events.
  repeat split; try done.
  unfold tick. unfold handle_events in Hbefore.
  destruct (before_update self inp) as [s1 running]. cbn [fst] in *.
  apply (f_equal calls) in Hbefore. rewrite Hc in Hbefore.
  destruct (update_and_draw_spec s1 (clock_tick inp # 1000)) as [Hcalls _].
  rewrite Hbefore in Hcalls. rewrite (calls_during_app _ _ _ Hcalls).
  cbn. rewrite !List.filter_app. cbn.
  unfold update_calls, draw_calls.
  destruct (current_module s1) as [[n m]|]; [|done].
  by destruct (attr_update m), (attr_draw m).
Qed.

Lemma quiet_tick_loads_nothing_witness :
  let self :=
    load_game (@pendulum_finder still_engine) "pendulum"
      (new_host no_key_agent) in
  space (before_update self
           (mkTickInput 16 [UI_BUTTON_PRESSED true; QUIT] (fun _ => None))).1
  = space self.
Proof.
  cbv zeta.
  apply (@quiet_tick_loads_nothing still_engine
           (load_game (@pendulum_finder still_engine) "pendulum"
              (new_host no_key_agent))
           (mkTickInput 16 [UI_BUTTON_PRESSED true; QUIT] (fun _ => None))).
  - by repeat constructor.
  - vm_compute. reflexivity.
Defined.

(** X26: a selection and a pending reload in the same iteration load
    the newly selected game twice. When the signal is set and the only
    event selects a game other than the current one, the host loads that
    game for the selection and loads it again for the reload, on a world
    rebuilt each time, before it clears the signal. *)
Theorem selection_and_reload_load_twice (self : GameHost) (inp : TickInput)
    (name : string) :
  reload_queued self = true ->
  events inp = [UI_SELECTION_LIST_NEW_SELECTION true name] ->
  current_game_name self <> Some name ->
  name <> "" ->
  (before_update self inp).1
  = set_reload_queued false
      (load_game (finder inp) name (load_game (finder inp) name self)).
Proof.
  intros Hset Hev Hother Hname. unfold before_update, handle_events.
  rewrite Hev. cbn [foldl handle_event].
  rewrite decide_False by congruence. cbn [fst].
  rewrite load_game_reload_queued, Hset. unfold process_reload.
  rewrite load_game_current_game_name. by destruct name.
Qed.

Lemma selection_and_reload_load_twice_witness :
  let finder := @pendulum_finder still_engine in
  let self := trigger_reload (new_host no_key_agent) in
  calls
    (before_update self
       (mkTickInput 16 [UI_SELECTION_LIST_NEW_SELECTION true "pendulum"]
          finder)).1
  = [CallSetup "games.pendulum.logic"; CallSetup "games.pendulum.logic"].
Proof.
  cbv zeta.
  rewrite (selection_and_reload_load_twice
             (trigger_reload (new_host no_key_agent))
             (mkTickInput 16 [UI_SELECTION_LIST_NEW_SELECTION true "pendulum"]
                (@pendulum_finder still_engine)) "pendulum");
    [vm_compute; reflexivity | reflexivity | reflexivity
    | discriminate | discriminate].
Defined.

Lemma frame_is_repainted_witness :
  screen (@tick still_engine
            (set_screen [Fill (RGB 1 2 3); DrawUI; DrawUI]
               (new_host no_key_agent))
            (mkTickInput 16 [] (fun _ => None))).1
  = [Fill (RGB 30 30 30); DrawUI].
Proof.
  apply (@frame_is_repainted still_engine). reflexivity.
Defined.
